(** * Verification of sample-data/generate_logs.py

    The log generator of the Openflow Kafka connector quick start: a
    synthesizer of structured log events ([generate_log_event]) and the loop
    that hands them to a Kafka producer ([produce_logs]).

    The Python code is embedded shallowly.  Its sources of
    non-determinism (the [random] module, the wall clock, and the answers of
    the broker and of [time.sleep]) are explicit components of a [World]
    that a small state and exception monad threads through the program. *)

From Stdlib Require Import ZArith NArith QArith Qround Qpower Lia Lqa.
From Stdlib Require Import Bool String Ascii List DecimalString.
From Equations Require Import Equations.
Import ListNotations.

Set Implicit Arguments.
Close Scope Q_scope.
Local Open Scope string_scope.

(** ** Python floats

    A finite Python float is a binary64 number, that is a rational
    [m * 2^e] with [|m| < 2^53] and [-1074 <= e].  Floats are modelled by the
    rationals they denote, and every arithmetic operation is the exact
    operation followed by [binary64], the rounding to the nearest binary64
    number, ties to the even significand, with an exponent that has no
    upper bound.  A result overflows when this rounding reaches the
    magnitude [2^1024], which no finite float has: it is an infinity then,
    modelled by [inf] or [- inf].  [fadd], [fsub] and [fmul] are the
    operations on finite floats whose result is finite, as it is wherever
    the program computes with its own constants; [add] is the addition that
    overflows, for the sums of weights that a caller chooses. *)
Module Float.
Local Open Scope Q_scope.

Definition Qltb (x y : Q) : bool := negb (Qle_bool y x).

(** [Qilog2 q] is the integer [l] with [2^l <= q < 2^(l+1)], for [0 < q]. *)
Definition Qilog2 (q : Q) : Z :=
  let c := (Z.log2 (Qnum q) - Z.log2 (Zpos (Qden q)))%Z in
  if Qle_bool (2 ^ c) q then c else (c - 1)%Z.

(** Rounding to the nearest integer, ties to even. *)
Definition round_half_even (q : Q) : Z :=
  let f := Qfloor q in
  match Qcompare (q - inject_Z f) (1 # 2) with
  | Lt => f
  | Gt => (f + 1)%Z
  | Eq => if Z.even f then f else (f + 1)%Z
  end.

(** The exponent of the unit in the last place of [q], for [0 < q]:
    53 significant bits, and [2^-1074] in the subnormal range. *)
Definition ulp_exponent (q : Q) : Z := Z.max (Qilog2 q - 52) (-1074).

Definition round_pos (q : Q) : Q :=
  let e := ulp_exponent q in
  Qred (inject_Z (round_half_even (q / 2 ^ e)) * 2 ^ e).

Definition binary64 (q : Q) : Q :=
  match Qnum q with
  | Z0 => 0
  | Zpos _ => round_pos q
  | Zneg _ => - round_pos (- q)
  end.

Definition fadd (x y : Q) : Q := binary64 (x + y).
Definition fsub (x y : Q) : Q := binary64 (x - y).
Definition fmul (x y : Q) : Q := binary64 (x * y).

(** The positive infinity, and [sys.float_info.max], the greatest finite
    float. *)
Definition inf : Q := 2 ^ 1024.
Definition max : Q := (2 ^ 53 - 1) * 2 ^ 971.

(** [math.isfinite(x)] *)
Definition isfinite (x : Q) : bool := Qltb (- inf) x && Qltb x inf.

(** [x + y] for a finite [y]: an infinity stays what it is, and a finite
    sum whose rounding leaves the finite floats is the infinity of its
    sign. *)
Definition add (x y : Q) : Q :=
  if isfinite x then
    let s := binary64 (x + y) in
    if Qle_bool inf s then inf
    else if Qle_bool s (- inf) then - inf
    else s
  else x.

(** [round(x, ndigits)] of a float, for [0 <= ndigits]: CPython prints [x]
    correctly rounded to [ndigits] decimals (ties to even, on the exact value
    of [x]) and reads the decimal string back as a float. *)
Definition round (x : Q) (ndigits : Z) : Q :=
  binary64 (inject_Z (round_half_even (x * 10 ^ ndigits)) / 10 ^ ndigits).

End Float.

(** ** Python values and dictionaries *)

Definition bytes := list N.

Inductive value : Type :=
| VNone
| VBool (b : bool)
| VInt (z : Z)
| VFloat (q : Q)
| VStr (s : string).

(** A [dict] keeps its items in insertion order: [keys()], [values()] and
    [json.dumps] follow it. *)
Definition dict (V : Type) : Type := list (string * V).

Section Dict.
Variable V : Type.

Fixpoint getitem (d : dict V) (k : string) : option V :=
  match d with
  | [] => None
  | (k', v) :: d' => if String.eqb k' k then Some v else getitem d' k
  end.

(** [d[k] = v]: the value is replaced in place when the key is there, and
    the item is added at the end when it is not. *)
Fixpoint setitem (d : dict V) (k : string) (v : V) : dict V :=
  match d with
  | [] => [(k, v)]
  | (k', v') :: d' =>
      if String.eqb k' k then (k', v) :: d' else (k', v') :: setitem d' k v
  end.

Definition keys (d : dict V) : list string := map fst d.
Definition values (d : dict V) : list V := map snd d.

End Dict.

(** ** Strings *)

Definition str_of_Z (z : Z) : string := NilZero.string_of_int (Z.to_int z).
Definition str_of_N (n : N) : string := str_of_Z (Z.of_N n).

Fixpoint repeat_char (c : ascii) (n : nat) : string :=
  match n with
  | O => EmptyString
  | S n' => String c (repeat_char c n')
  end.

(** The [%0<width>d] format of a natural number. *)
Definition zfill (width : nat) (n : N) : string :=
  let s := str_of_N n in
  repeat_char "0"%char (width - String.length s) ++ s.

(** [s.replace(old, new)] for a non-empty [old]: every occurrence of [old],
    from the left and without overlap.  [skip] counts the characters of an
    occurrence that was just replaced and are still to be dropped. *)
Fixpoint replace_from (old new : string) (skip : nat) (s : string) : string :=
  match s with
  | EmptyString => EmptyString
  | String c s' =>
      match skip with
      | S k => replace_from old new k s'
      | O =>
          if String.prefix old s
          then new ++ replace_from old new (String.length old - 1) s'
          else String c (replace_from old new 0 s')
      end
  end.

Definition replace (s old new : string) : string := replace_from old new 0 s.

Definition hex_digit (n : N) : ascii :=
  match String.get (N.to_nat n) "0123456789abcdef" with
  | Some c => c
  | None => "0"%char
  end.

(** [bytes.hex()]: two lowercase digits per byte, the high one first. *)
Fixpoint hex (b : bytes) : string :=
  match b with
  | [] => EmptyString
  | x :: b' => String (hex_digit (x / 16)) (String (hex_digit (x mod 16)) (hex b'))
  end.

(** [int.to_bytes(n, 'little')] *)
Fixpoint to_bytes_little (n : nat) (v : N) : bytes :=
  match n with
  | O => []
  | S n' => (v mod 256)%N :: to_bytes_little n' (v / 256)%N
  end.

(** ** The world outside the program *)

Record datetime : Type := mkDatetime {
  year : N; month : N; day : N;
  hour : N; minute : N; second : N; microsecond : N
}.

(** What happens to one [producer.send(...)] followed by [future.get(...)]. *)
Inductive delivery : Type :=
| SendRaises (e : string)
| GetRaises (e : string)
| Delivered (partition offset : Z).

(** What the program does to the outside, in the order in which it does
    it.  [Send] and [Sleep] are the calls of [producer.send] and of
    [time.sleep], with their arguments, whatever becomes of them. *)
Inductive effect : Type :=
| Print (line : string)
| Send (topic : string) (key : value) (payload : dict value)
| Sleep (seconds : Q)
| Flush.

(** The exceptions: those that the program and the standard library raise
    on the program's own data, by their types, and [LibraryError], an
    exception that comes from outside (the Kafka client, the timer of the
    platform), of which the program uses the text only.  All of them are
    instances of [Exception]. *)
Inductive exn : Type :=
| IndexError (msg : string)
| KeyError (key : string)
| ValueError (msg : string)
| AttributeError (msg : string)
| LibraryError (text : string).

(** The random source is taken at the level of the calls of the [random]
    module: [rng i] is the draw of the [i]-th call, the number of which the
    call makes its result, and [drawn] counts the calls.  How many outputs
    of the underlying generator a call consumes (CPython's [_randbelow] asks
    for another one until it gets a number below its bound) is inside one
    call, and is not modelled. *)
Record World : Type := mkWorld {
  rng : nat -> N;          (* the random source: the draw of its i-th call *)
  drawn : nat;             (* the number of calls so far *)
  clock : nat -> datetime; (* the wall clock: its i-th reading *)
  reads : nat;             (* the number of readings taken so far *)
  broker : nat -> delivery;(* the fate of the i-th message sent *)
  sent : nat;              (* the number of messages sent so far *)
  nap : nat -> option string;
                           (* the i-th call of time.sleep: it returns, or
                              raises an exception of this text *)
  naps : nat;              (* the number of calls of time.sleep so far *)
  trace : list effect      (* the effects so far, oldest first *)
}.

(** ** A state and exception monad *)

Inductive result (A : Type) : Type :=
| Ok (a : A)
| Raise (e : exn).
Arguments Ok {A} a.
Arguments Raise {A} e.

Definition M (A : Type) : Type := World -> result A * World.

Definition ret {A} (a : A) : M A := fun w => (Ok a, w).

Definition raise {A} (e : exn) : M A := fun w => (Raise e, w).

Definition bind {A B} (m : M A) (k : A -> M B) : M B :=
  fun w =>
    match m w with
    | (Ok a, w') => k a w'
    | (Raise e, w') => (Raise e, w')
    end.

Declare Scope monad_scope.
Delimit Scope monad_scope with monad.
Notation "x <- m ;; k" := (bind m (fun x => k))
  (at level 100, m at next level, right associativity) : monad_scope.
Notation "' pat <- m ;; k" := (bind m (fun x => match x with pat => k end))
  (at level 100, pat pattern, m at next level, right associativity) : monad_scope.
Notation "m ;; k" := (bind m (fun _ => k))
  (at level 100, right associativity) : monad_scope.
Local Open Scope monad_scope.

(** [d[k]] in the monad: a missing key raises [KeyError]. *)
Definition subscript {V} (d : dict V) (k : string) : M V :=
  match getitem d k with
  | Some v => ret v
  | None => raise (KeyError k)
  end.

(** [l[i]] in the monad. *)
Definition index {A} (l : list A) (i : nat) : M A :=
  match nth_error l i with
  | Some x => ret x
  | None => raise (IndexError "list index out of range")
  end.

Definition emit (e : effect) : M unit :=
  fun w => (Ok tt, mkWorld (rng w) (drawn w) (clock w) (reads w)
                           (broker w) (sent w) (nap w) (naps w) (trace w ++ [e])).

Definition print (line : string) : M unit := emit (Print line).

(** ** The standard library, as far as the program uses it *)

(** [bisect.bisect(a, x, lo, hi)], the binary search of [bisect_right].
    Every index it reads lies in [lo, hi). *)
Equations? bisect (a : list Q) (x : Q) (lo hi : nat) : nat by wf (hi - lo) lt :=
  bisect a x lo hi with lt_dec lo hi := {
    | left _ with Float.Qltb x (nth ((lo + hi) / 2) a 0%Q) := {
        | true := bisect a x lo ((lo + hi) / 2)
        | false := bisect a x ((lo + hi) / 2 + 1) hi };
    | right _ := lo }.
Proof.
  all: change (fst (Nat.divmod (lo + hi) 1 0 1)) with ((lo + hi) / 2).
  - assert ((lo + hi) / 2 < hi) by (apply Nat.Div0.div_lt_upper_bound; lia). lia.
  - assert (lo <= (lo + hi) / 2) by (apply Nat.div_le_lower_bound; lia). lia.
Qed.

(** [itertools.accumulate] of finite floats: the running sums, from the
    left.  A sum that overflows is an infinity, and so are the sums after
    it. *)
Fixpoint accumulate_from (acc : Q) (l : list Q) : list Q :=
  match l with
  | [] => []
  | x :: l' => let s := Float.add acc x in s :: accumulate_from s l'
  end.

Definition accumulate (l : list Q) : list Q :=
  match l with
  | [] => []
  | x :: l' => x :: accumulate_from x l'
  end.

Module datetime_.

(** [datetime.now(timezone.utc)] *)
Definition now : M datetime :=
  fun w => (Ok (clock w (reads w)),
            mkWorld (rng w) (drawn w) (clock w) (S (reads w))
                    (broker w) (sent w) (nap w) (naps w) (trace w)).

(** [isoformat()] of a datetime whose zone is UTC. *)
Definition isoformat (d : datetime) : string :=
  zfill 4 (year d) ++ "-" ++ zfill 2 (month d) ++ "-" ++ zfill 2 (day d) ++ "T" ++
  zfill 2 (hour d) ++ ":" ++ zfill 2 (minute d) ++ ":" ++ zfill 2 (second d) ++
  (if (microsecond d =? 0)%N then EmptyString
   else "." ++ zfill 6 (microsecond d)) ++
  "+00:00".

End datetime_.

Module random.

(** The draw of one call of the module.  Every function below takes one,
    and makes its result of it. *)
Definition draw : M N :=
  fun w => (Ok (rng w (drawn w)),
            mkWorld (rng w) (S (drawn w)) (clock w) (reads w)
                    (broker w) (sent w) (nap w) (naps w) (trace w)).

(** [random.random()]: a float [k / 2^53] with [0 <= k < 2^53]. *)
Definition random : M Q :=
  k <- draw ;;
  ret (Z.of_N (k mod 2 ^ 53) # 2 ^ 53)%Q.

(** [_randbelow(n)], for [0 < n]: a number below [n].  CPython asks the
    generator for [n.bit_length()] bits until they make a number below [n];
    the model keeps the call and leaves out its loop: the number is made of
    the draw of the call, and is any number below [n]. *)
Definition _randbelow (n : N) : M N :=
  k <- draw ;; ret (k mod n)%N.

(** [random.randint(a, b)], which is [randrange(a, b + 1)] *)
Definition randint (a b : Z) : M Z :=
  let width := (b + 1 - a)%Z in
  if (0 <? width)%Z then
    r <- _randbelow (Z.to_N width) ;;
    ret (a + Z.of_N r)%Z
  else
    raise (ValueError ("empty range for randrange() (" ++ str_of_Z a ++ ", " ++
                       str_of_Z (b + 1) ++ ", " ++ str_of_Z width ++ ")")).

(** [random.choice(seq)] *)
Definition choice {A} (seq : list A) : M A :=
  if (length seq =? 0)%nat then
    raise (IndexError "Cannot choose from an empty sequence")
  else
    i <- _randbelow (N.of_nat (length seq)) ;;
    index seq (N.to_nat i).

(** [random.randbytes(n)] *)
Definition randbytes (n : nat) : M bytes :=
  k <- draw ;;
  ret (to_bytes_little n (k mod 2 ^ (8 * N.of_nat n))).

(** [random.uniform(a, b)] *)
Definition uniform (a b : Q) : M Q :=
  r <- random ;;
  ret (Float.fadd a (Float.fmul (Float.fsub b a) r)).

(** [random.choices(population, weights=weights)], with its default [k=1].
    The weights are finite floats. *)
Definition choices {A} (population : list A) (weights : list Q) : M (list A) :=
  let n := length population in
  let cum_weights := accumulate weights in
  if negb (length cum_weights =? n)%nat then
    raise (ValueError "The number of weights does not match the population")
  else
    last_cum <- index cum_weights (length cum_weights - 1) ;;
    let total := Float.add last_cum 0 in
    if Qle_bool total 0 then
      raise (ValueError "Total of weights must be greater than zero")
    else if negb (Float.isfinite total) then
      raise (ValueError "Total of weights must be finite")
    else
      r <- random ;;
      x <- index population (bisect cum_weights (Float.fmul r total) 0 (n - 1)) ;;
      ret [x].

End random.

(** ** The program: sample data *)

Definition SERVICES : list string := [
  "web-api";
  "auth-service";
  "db-service";
  "payment-service";
  "inventory-service";
  "notification-service";
  "search-service";
  "analytics-service"
].

Definition HOSTS : dict (list string) := [
  ("web-api", ["api-server-01"; "api-server-02"; "api-server-03"]);
  ("auth-service", ["auth-server-01"; "auth-server-02"]);
  ("db-service", ["db-server-01"]);
  ("payment-service", ["payment-server-01"; "payment-server-02"]);
  ("inventory-service", ["inventory-server-01"; "inventory-server-02"]);
  ("notification-service", ["notif-server-01"]);
  ("search-service", ["search-server-01"; "search-server-02"]);
  ("analytics-service", ["analytics-server-01"])
].

Definition LOG_LEVELS : dict Q := [
  ("INFO", Float.binary64 0.70);
  ("WARN", Float.binary64 0.20);
  ("ERROR", Float.binary64 0.10)
].

Definition INFO_MESSAGES : list string := [
  "Request processed successfully";
  "User authentication successful";
  "GET /api/v1/products";
  "POST /api/v1/orders";
  "PUT /api/v1/cart";
  "DELETE /api/v1/cart/items";
  "GET /api/v1/users/profile";
  "Search query executed";
  "Payment processed";
  "Email notification sent";
  "SMS notification sent";
  "Daily report generated";
  "Cache refreshed successfully";
  "Session created";
  "File uploaded successfully"
].

Definition WARN_MESSAGES : list string := [
  "Query execution took longer than expected";
  "Low stock alert for product SKU-12345";
  "Multiple failed login attempts detected";
  "Connection pool nearly exhausted";
  "Payment declined";
  "Rate limit approaching threshold";
  "Memory usage above 80%";
  "Disk space running low"
].

Definition ERROR_MESSAGES : list (string * string) := [
  ("Database connection timeout", "ConnectionTimeout");
  ("Payment gateway timeout", "GatewayTimeout");
  ("Deadlock detected in transaction", "DeadlockDetected");
  ("Failed to update inventory count", "ConcurrencyException");
  ("Internal server error", "NullPointerException");
  ("Service unavailable", "ServiceUnavailable");
  ("Authentication failed", "AuthenticationError");
  ("Invalid input data", "ValidationError")
].

Definition STATUS_CODES : dict (list Z) := [
  ("INFO", [200; 201; 204]%Z);
  ("WARN", [200; 402]%Z);
  ("ERROR", [500; 503; 504; 409]%Z)
].

(** ** The program: the synthesizer *)

(** Select item based on weighted probabilities. *)
Definition weighted_choice (choices : dict Q) : M string :=
  let items := keys choices in
  let weights := values choices in
  picked <- random.choices items weights ;;
  index picked 0.

Definition LogEvent : Type := dict value.

(** Generate a single log event. *)
Definition generate_log_event : M LogEvent :=
  level <- weighted_choice LOG_LEVELS ;;
  service <- random.choice SERVICES ;;
  hosts <- subscript HOSTS service ;;
  host <- random.choice hosts ;;
  now <- datetime_.now ;;
  token <- random.randbytes 4 ;;
  let log := [
    ("timestamp", VStr (replace (datetime_.isoformat now) "+00:00" "Z"));
    ("level", VStr level);
    ("service", VStr service);
    ("host", VStr host);
    ("request_id", VStr ("req-" ++ hex token))
  ] in
  if level =? "INFO" then
    message <- random.choice INFO_MESSAGES ;;
    let log := setitem log "message" (VStr message) in
    duration <- random.randint 10 500 ;;
    let log := setitem log "duration_ms" (VInt duration) in
    codes <- subscript STATUS_CODES "INFO" ;;
    code <- random.choice codes ;;
    let log := setitem log "status_code" (VInt code) in
    r <- random.random ;;
    log <- (if Float.Qltb r (Float.binary64 0.7) then
              n <- random.randint 10000 99999 ;;
              ret (setitem log "user_id" (VStr ("user-" ++ str_of_Z n)))
            else ret log) ;;
    r <- random.random ;;
    log <- (if Float.Qltb r (Float.binary64 0.5) && (service =? "web-api") then
              a <- random.randint 1 255 ;;
              b <- random.randint 1 255 ;;
              ret (setitem log "ip_address"
                     (VStr ("192.168." ++ str_of_Z a ++ "." ++ str_of_Z b)))
            else ret log) ;;
    r <- random.random ;;
    log <- (if Float.Qltb r (Float.binary64 0.3) && (service =? "payment-service") then
              x <- random.uniform (Float.binary64 9.99) (Float.binary64 999.99) ;;
              ret (setitem log "amount" (VFloat (Float.round x 2)))
            else ret log) ;;
    ret log
  else if level =? "WARN" then
    message <- random.choice WARN_MESSAGES ;;
    let log := setitem log "message" (VStr message) in
    codes <- subscript STATUS_CODES "WARN" ;;
    code <- random.choice codes ;;
    let log := setitem log "status_code" (VInt code) in
    r <- random.random ;;
    log <- (if Float.Qltb r (Float.binary64 0.5) then
              duration <- random.randint 500 2000 ;;
              ret (setitem log "duration_ms" (VInt duration))
            else ret log) ;;
    r <- random.random ;;
    log <- (if Float.Qltb r (Float.binary64 0.4) then
              n <- random.randint 10000 99999 ;;
              ret (setitem log "user_id" (VStr ("user-" ++ str_of_Z n)))
            else ret log) ;;
    ret log
  else
    '(message, error_type) <- random.choice ERROR_MESSAGES ;;
    let log := setitem log "message" (VStr message) in
    let log := setitem log "error" (VStr error_type) in
    codes <- subscript STATUS_CODES "ERROR" ;;
    code <- random.choice codes ;;
    let log := setitem log "status_code" (VInt code) in
    duration <- random.randint 1000 10000 ;;
    let log := setitem log "duration_ms" (VInt duration) in
    ret log.

(** ** The program: the producer loop *)

(** [str(e)] *)
Definition str_of_exn (e : exn) : string :=
  match e with
  | IndexError msg | ValueError msg | AttributeError msg => msg
  | KeyError key => "'" ++ key ++ "'"
  | LibraryError text => text
  end.

(** [try: body except Exception as e: handler(e)] *)
Definition try_except {A} (body : M A) (handler : exn -> M A) : M A :=
  fun w =>
    match body w with
    | (Ok a, w') => (Ok a, w')
    | (Raise e, w') => handler e w'
    end.

(** [producer.send(topic, key=key, value=value)] followed by
    [future.get(timeout=10)], which returns the partition and the offset of
    the record.  The call is recorded with its arguments as the program
    passed them; the broker decides what becomes of it: either of the two
    calls can raise. *)
Definition send (topic : string) (key : value) (payload : LogEvent) : M (Z * Z) :=
  fun w => (match broker w (sent w) with
            | Delivered partition offset => Ok (partition, offset)
            | SendRaises e | GetRaises e => Raise (LibraryError e)
            end,
            mkWorld (rng w) (drawn w) (clock w) (reads w)
                    (broker w) (S (sent w)) (nap w) (naps w)
                    (trace w ++ [Send topic key payload])).

(** [time.sleep(seconds)].  The call is recorded; the platform decides
    whether it returns or raises, as it does with [OverflowError] for a
    number of seconds beyond the range of its timer. *)
Definition sleep (seconds : Q) : M unit :=
  fun w => (match nap w (naps w) with
            | None => Ok tt
            | Some e => Raise (LibraryError e)
            end,
            mkWorld (rng w) (drawn w) (clock w) (reads w)
                    (broker w) (sent w) (nap w) (S (naps w))
                    (trace w ++ [Sleep seconds])).

(** [for i in range(start, start + n): body(i)] *)
Fixpoint for_range (start : Z) (n : nat) (body : Z -> M unit) : M unit :=
  match n with
  | O => ret tt
  | S n' => body start ;; for_range (start + 1) n' body
  end.

(** Produce log events to Kafka topic.  The producer of the Python function
    is the broker of the world. *)
Definition produce_logs (topic : string) (count : Z) (delay : Q) : M unit :=
  print ("Producing " ++ str_of_Z count ++ " log events to topic '" ++ topic ++ "'...") ;;
  for_range 0 (Z.to_nat count) (fun i =>
    log <- generate_log_event ;;
    key <- subscript log "service" ;;
    try_except
      ('(partition, offset) <- send topic key log ;;
       (if ((i + 1) mod 10 =? 0)%Z || (i + 1 =? count)%Z then
          print ("  Sent " ++ str_of_Z (i + 1) ++ "/" ++ str_of_Z count ++
                 " events (partition: " ++ str_of_Z partition ++
                 ", offset: " ++ str_of_Z offset ++ ")")
        else ret tt) ;;
       (if Float.Qltb 0 delay && (i <? count - 1)%Z then sleep delay else ret tt))
      (fun e =>
         print ("Error sending message " ++ str_of_Z (i + 1) ++ ": " ++ str_of_exn e))) ;;
  emit Flush ;;
  print ("✓ Successfully produced " ++ str_of_Z count ++ " log events").

(** The two serializers that [create_producer] configures.  [json.dumps]
    belongs to the standard library and is a parameter here. *)
Section Serializers.
Variable json_dumps : LogEvent -> string.

(** Python's truth value of an object. *)
Definition truthy (v : value) : bool :=
  match v with
  | VNone => false
  | VBool b => b
  | VInt z => negb (z =? 0)%Z
  | VFloat q => negb (Qeq_bool q 0)
  | VStr s => negb (s =? EmptyString)
  end.

(** [type(v).__name__] *)
Definition type_name (v : value) : string :=
  match v with
  | VNone => "NoneType"
  | VBool _ => "bool"
  | VInt _ => "int"
  | VFloat _ => "float"
  | VStr _ => "str"
  end.

(** [lambda k: k.encode('utf-8') if k else None]; strings are kept in
    UTF-8, so that encoding a [str] leaves its bytes as they are.  A true
    key that is not a [str] has no [encode]. *)
Definition key_serializer (k : value) : result (option string) :=
  if truthy k then
    match k with
    | VStr s => Ok (Some s)
    | _ => Raise (AttributeError
                    ("'" ++ type_name k ++ "' object has no attribute 'encode'"))
    end
  else Ok None.

(** [lambda v: json.dumps(v).encode('utf-8')] *)
Definition value_serializer (v : LogEvent) : string := json_dumps v.

(** What the producer that [create_producer] configures puts on the wire
    for the call [send(topic, key=key, value=value)]: the topic, and the key
    and the value, each through its serializer. *)
Definition serialized (call : string * value * LogEvent)
    : result (string * option string * string) :=
  let '(topic, key, payload) := call in
  match key_serializer key with
  | Ok k => Ok (topic, k, value_serializer payload)
  | Raise e => Raise e
  end.

End Serializers.

(** * Specification vocabulary *)

(** [generates w log]: called in the world [w], the synthesizer returns
    the record [log]. *)
Definition generates (w : World) (log : LogEvent) : Prop :=
  fst (generate_log_event w) = Ok log.

(** Two worlds whose random sources return the same sequence of draws from
    now on. *)
Definition same_draws (w1 w2 : World) : Prop :=
  forall i, rng w1 (drawn w1 + i) = rng w2 (drawn w2 + i).

(** The values that the functions of [random] make of a draw. *)
Definition unit_float (k : N) : Q := (Z.of_N (k mod 2 ^ 53) # 2 ^ 53)%Q.
Definition octet (k : N) : Z := (1 + Z.of_N k mod 255)%Z.

(** The total weight of a mapping as [random.choices] computes it: the
    last of the running float sums, which is an infinity when a sum has
    overflowed. *)
Definition total_weight (choices : dict Q) : Q :=
  Float.add (last (accumulate (values choices)) 0%Q) 0.

(** ** A program logic for the synthesizer

    [wp m Q]: in every world whose random source is [g], the computation
    [m] returns without an exception a value that satisfies [Q], and leaves
    the random source, the broker and the trace as they were. *)
Section Logic.
Variables (g : nat -> N) (b : nat -> delivery) (n : nat) (tr : list effect).

Definition calm (w : World) : Prop :=
  rng w = g /\ broker w = b /\ sent w = n /\ trace w = tr.

Definition wp {A} (m : M A) (Q : A -> Prop) : Prop :=
  forall w, calm w -> exists a w', m w = (Ok a, w') /\ calm w' /\ Q a.

End Logic.

(** ** A relational logic for two runs

    [sync J w1 w2]: the two worlds have the same draws to come, and their
    next clock readings are related by [J]. *)
Definition sync (J : datetime -> datetime -> Prop) (w1 w2 : World) : Prop :=
  same_draws w1 w2 /\ J (clock w1 (reads w1)) (clock w2 (reads w2)).

Definition unrelated (t1 t2 : datetime) : Prop := True.

(** [rel Pre m1 m2 R Post]: from worlds related by [Pre], the two
    computations either both return, values related by [R] in worlds related
    by [Post], or both raise the same exception. *)
Definition rel (Pre : World -> World -> Prop) {A} (m1 m2 : M A)
    (R : A -> A -> Prop) (Post : World -> World -> Prop) : Prop :=
  forall w1 w2, Pre w1 w2 ->
    match m1 w1, m2 w2 with
    | (Ok a1, w1'), (Ok a2, w2') => R a1 a2 /\ Post w1' w2'
    | (Raise e1, _), (Raise e2, _) => e1 = e2
    | _, _ => False
    end.

(** A computation that reads nothing but the random source. *)
Definition rng_only {A} (m : M A) : Prop :=
  forall J, rel (sync J) m m eq (sync J).

(** ** The shape of a generated event *)

Definition timestamp_of (t : datetime) : string :=
  replace (datetime_.isoformat t) "+00:00" "Z".

Definition base_log (ts level service host request_id : string) : LogEvent := [
  ("timestamp", VStr ts);
  ("level", VStr level);
  ("service", VStr service);
  ("host", VStr host);
  ("request_id", VStr request_id)
].

(** [log[k] = v] when [v] is there, and nothing when it is not. *)
Definition with_field (log : LogEvent) (k : string) (v : option value) : LogEvent :=
  match v with
  | Some x => setitem log k x
  | None => log
  end.

Definition user_field (v : option value) : Prop :=
  forall x, v = Some x ->
    exists u, (10000 <= u <= 99999)%Z /\ x = VStr ("user-" ++ str_of_Z u).

Definition ip_field (g : nat -> N) (service : string) (v : option value) : Prop :=
  forall x, v = Some x ->
    service = "web-api" /\
    exists i j,
      x = VStr ("192.168." ++ str_of_Z (octet (g i)) ++ "." ++ str_of_Z (octet (g j))).

Definition amount_field (service : string) (v : option value) : Prop :=
  forall x, v = Some x ->
    service = "payment-service" /\
    exists k,
      x = VFloat (Float.round
                    (Float.fadd (Float.binary64 9.99)
                       (Float.fmul
                          (Float.fsub (Float.binary64 999.99) (Float.binary64 9.99))
                          (unit_float k))) 2).

Definition slow_field (v : option value) : Prop :=
  forall x, v = Some x -> exists d, (500 <= d <= 2000)%Z /\ x = VInt d.

(** What the branch of a level adds to the base record [log0]. *)
Inductive Body (g : nat -> N) (service : string) (log0 : LogEvent) :
    string -> LogEvent -> Prop :=
| body_info message duration code user ip amount :
    In message INFO_MESSAGES ->
    (10 <= duration <= 500)%Z ->
    In code [200; 201; 204]%Z ->
    user_field user -> ip_field g service ip -> amount_field service amount ->
    Body g service log0 "INFO"
      (with_field
         (with_field
            (with_field
               (setitem
                  (setitem (setitem log0 "message" (VStr message))
                     "duration_ms" (VInt duration))
                  "status_code" (VInt code))
               "user_id" user)
            "ip_address" ip)
         "amount" amount)
| body_warn message code duration user :
    In message WARN_MESSAGES ->
    In code [200; 402]%Z ->
    slow_field duration -> user_field user ->
    Body g service log0 "WARN"
      (with_field
         (with_field
            (setitem (setitem log0 "message" (VStr message))
               "status_code" (VInt code))
            "duration_ms" duration)
         "user_id" user)
| body_error message error_type code duration :
    In (message, error_type) ERROR_MESSAGES ->
    In code [500; 503; 504; 409]%Z ->
    (1000 <= duration <= 10000)%Z ->
    Body g service log0 "ERROR"
      (setitem
         (setitem
            (setitem (setitem log0 "message" (VStr message))
               "error" (VStr error_type))
            "status_code" (VInt code))
         "duration_ms" (VInt duration)).

Inductive GenEvent (g : nat -> N) : LogEvent -> Prop :=
| gen_event ts level service hosts host k log :
    In service SERVICES ->
    getitem HOSTS service = Some hosts ->
    In host hosts ->
    Body g service
      (base_log ts level service host
         ("req-" ++ hex (to_bytes_little 4 (k mod 2 ^ 32))))
      level log ->
    GenEvent g log.

(** Two records that differ at most in their timestamps, which come from
    clock readings related by [J]. *)
Definition twins (J : datetime -> datetime -> Prop) (l1 l2 : LogEvent) : Prop :=
  exists t1 t2 rest,
    J t1 t2 /\
    l1 = ("timestamp", VStr (timestamp_of t1)) :: rest /\
    l2 = ("timestamp", VStr (timestamp_of t2)) :: rest.

(** ** Vocabulary of the properties *)

Definition base_fields : list string :=
  ["timestamp"; "level"; "service"; "host"; "request_id"; "message"; "status_code"].

Definition is_lower_hex (c : ascii) : bool :=
  let n := nat_of_ascii c in
  ((48 <=? n) && (n <=? 57) || (97 <=? n) && (n <=? 102))%nat.

(** The regular expression [req-[0-9a-f]{8}]. *)
Definition matches_request_id (s : string) : bool :=
  match s with
  | String "r" (String "e" (String "q" (String "-" rest))) =>
      (String.length rest =? 8)%nat && forallb is_lower_hex (list_ascii_of_string rest)
  | _ => false
  end.

(** The calls of [producer.send] in a trace, in order. *)
Fixpoint sends_of (tr : list effect) : list (string * value * LogEvent) :=
  match tr with
  | [] => []
  | Send topic key payload :: tr' => (topic, key, payload) :: sends_of tr'
  | _ :: tr' => sends_of tr'
  end.

(** The records that [n] calls of the synthesizer return, one after the
    other, from the world [w] on. *)
Fixpoint events (n : nat) (w : World) : list LogEvent :=
  match n with
  | O => []
  | S n' =>
      match generate_log_event w with
      | (Ok log, w') => log :: events n' w'
      | (Raise _, _) => []
      end
  end.

(** What the specification says of the call of [producer.send] for the
    record [log]: the topic is the one of the loop, the value is [log]
    itself and the key is its service; on the wire, the key is the bytes of
    the service and the value is the serialized record, [json.dumps(log)]. *)
Definition sent_event (json_dumps : LogEvent -> string) (topic : string)
    (log : LogEvent) (call : string * value * LogEvent) : Prop :=
  exists service,
    getitem log "service" = Some (VStr service) /\
    call = (topic, VStr service, log) /\
    serialized json_dumps call = Ok (topic, Some service, json_dumps log).

(** ** Sample worlds *)

Definition noon : datetime := mkDatetime 2025 1 1 12 0 0 0.
Definition a_second_later : datetime := mkDatetime 2025 1 1 12 0 1 0.

Definition world_of (tape : nat -> N) (t : datetime) : World :=
  mkWorld tape 0 (fun _ => t) 0 (fun _ => Delivered 0 0) 0 (fun _ => None) 0 [].

(** Every draw is the least one. *)
Definition lowest (i : nat) : N := 0%N.

(** Every draw is the greatest 53-bit one. *)
Definition highest (i : nat) : N := (2 ^ 53 - 1)%N.

(** The least draws, but for the service, which is the fourth one. *)
Definition payment (i : nat) : N :=
  match i with
  | 1%nat => 3%N
  | _ => 0%N
  end.

(** The least draws, but for the service and for the draw of the amount,
    which is the greatest one. *)
Definition dearest_payment (i : nat) : N :=
  match i with
  | 1%nat => 3%N
  | 11%nat => (2 ^ 53 - 1)%N
  | _ => 0%N
  end.

(** The least draws, but for the two of the octets of the address. *)
Definition address (a b : N) (i : nat) : N :=
  match i with
  | 10%nat => a
  | 11%nat => b
  | _ => 0%N
  end.

Definition event_of (w : World) : LogEvent :=
  match fst (generate_log_event w) with
  | Ok log => log
  | Raise _ => []
  end.

Definition lowest_event : LogEvent :=
  Eval vm_compute in event_of (world_of lowest noon).

Definition highest_event : LogEvent :=
  Eval vm_compute in event_of (world_of highest noon).

Definition payment_event : LogEvent :=
  Eval vm_compute in event_of (world_of payment noon).

Definition lowest_event_later : LogEvent :=
  Eval vm_compute in event_of (world_of lowest a_second_later).

(** ** The two properties that the code does not have, as the
    specification states them *)

(** An octet that is the value [randint(1, 255)] makes of a draw of the
    random source. *)
Definition drawn_octet (g : nat -> N) (o : Z) : Prop := exists i, o = octet (g i).

(** An address of four octets, each of them drawn. *)
Definition four_drawn_octets (g : nat -> N) (x : value) : Prop :=
  exists o1 o2 o3 o4,
    drawn_octet g o1 /\ drawn_octet g o2 /\ drawn_octet g o3 /\ drawn_octet g o4 /\
    x = VStr (str_of_Z o1 ++ "." ++ str_of_Z o2 ++ "." ++
              str_of_Z o3 ++ "." ++ str_of_Z o4).

Definition ip_address_of_four_draws (w : World) : Prop :=
  forall log x,
    generates w log -> getitem log "ip_address" = Some x ->
    getitem log "level" = Some (VStr "INFO") /\
    getitem log "service" = Some (VStr "web-api") /\
    four_drawn_octets (rng w) x.

Definition record_determined_by_draws (w1 w2 : World) : Prop :=
  same_draws w1 w2 ->
  forall l1 l2, generates w1 l1 -> generates w2 l2 -> l1 = l2.

(** ** The property that [weighted_choice] does not have: a key for every
    positive sum of weights *)

(** The total weight of a mapping: the sum of its weights. *)
Definition sum_of_weights (choices : dict Q) : Q :=
  fold_right Qplus 0%Q (values choices).

Definition returns_key_for_positive_total (choices : dict Q) (w : World) : Prop :=
  0 < length choices ->
  (0 < sum_of_weights choices)%Q ->
  exists item, fst (weighted_choice choices w) = Ok item /\ In item (keys choices).

(** Two outcomes, each with the greatest finite float as its weight. *)
Definition heaviest : dict Q := [("a", Float.max); ("b", Float.max)].

(** Three weights whose sum is [2^-60], and whose running float sums end
    in 0: [1 + 2^-60] rounds to 1. *)
Definition cancelling : dict Q := [("a", 1%Q); ("b", (1 # 2 ^ 60)%Q); ("c", (- 1)%Q)].

(** * Vocabulary of the further properties *)

(** The names of all the fields that a record can have. *)
Definition known_fields : list string :=
  ["timestamp"; "level"; "service"; "host"; "request_id"; "message";
   "duration_ms"; "status_code"; "user_id"; "ip_address"; "amount"; "error"].

Definition is_digit (c : ascii) : bool :=
  let n := nat_of_ascii c in ((48 <=? n) && (n <=? 57))%nat.

(** The regular expression [user-[0-9]{5}]. *)
Definition matches_user_id (s : string) : bool :=
  match s with
  | String "u" (String "s" (String "e" (String "r" (String "-" rest)))) =>
      (String.length rest =? 5)%nat && forallb is_digit (list_ascii_of_string rest)
  | _ => false
  end.

(** [P z && P (z + 1) && ...], for [n] integers from [z] on. *)
Fixpoint all_from (P : Z -> bool) (z : Z) (n : nat) : bool :=
  match n with
  | O => true
  | S n' => P z && all_from P (z + 1) n'
  end.

(** Lists of strings without repetition, and lists of strings taken from
    another, as tests. *)
Fixpoint distinct (l : list string) : bool :=
  match l with
  | [] => true
  | x :: l' => negb (existsb (String.eqb x) l') && distinct l'
  end.

Definition all_among (l allowed : list string) : bool :=
  forallb (fun x => existsb (String.eqb x) allowed) l.

(** The date and the time of [isoformat()], without the offset. *)
Definition local_time (d : datetime) : string :=
  zfill 4 (year d) ++ "-" ++ zfill 2 (month d) ++ "-" ++ zfill 2 (day d) ++ "T" ++
  zfill 2 (hour d) ++ ":" ++ zfill 2 (minute d) ++ ":" ++ zfill 2 (second d) ++
  (if (microsecond d =? 0)%N then EmptyString
   else "." ++ zfill 6 (microsecond d)).

Definition no_plus (s : string) : bool :=
  forallb (fun c => negb (Ascii.eqb c "+")) (list_ascii_of_string s).

(** The world [w] after [d] calls of the [random] module and [t] readings
    of the clock, and nothing else. *)
Definition advanced (w : World) (d t : nat) : World :=
  mkWorld (rng w) (drawn w + d) (clock w) (reads w + t)
          (broker w) (sent w) (nap w) (naps w) (trace w).

(** [uses m Q]: when [m] returns [a], it has made [d] calls of the [random]
    module and taken [t] readings of the clock, with [Q a d t], and has
    done nothing else to the world. *)
Definition uses {A} (m : M A) (Q : A -> nat -> nat -> Prop) : Prop :=
  forall w a w', m w = (Ok a, w') ->
    exists d t, w' = advanced w d t /\ Q a d t.

(** One call and no reading. *)
Definition one_draw {A} (a : A) (d t : nat) : Prop := d = 1 /\ t = 0.

(** Neither a call nor a reading. *)
Definition no_draw {A} (a : A) (d t : nat) : Prop := d = 0 /\ t = 0.

(** Two worlds with the same random source and the same clock, at the same
    places. *)
Definition agree (w1 w2 : World) : Prop :=
  rng w1 = rng w2 /\ drawn w1 = drawn w2 /\
  clock w1 = clock w2 /\ reads w1 = reads w2.

(** A computation whose result depends on the random source and on the
    clock only. *)
Definition inward {A} (m : M A) : Prop := rel agree m m eq agree.

(** A list of numbers that never decreases, as a test. *)
Fixpoint nondecreasing (a : list Q) : bool :=
  match a with
  | [] => true
  | x :: a' =>
      match a' with
      | [] => true
      | y :: _ => Qle_bool x y && nondecreasing a'
      end
  end.

(** The running sums of the weights of a mapping. *)
Definition running_sums (choices : dict Q) : list Q := accumulate (values choices).

(** ** The producer loop, round by round *)

(** The body of the loop of [produce_logs], for the event of index [i]. *)
Definition produce_one (topic : string) (count : Z) (delay : Q) (i : Z) : M unit :=
  log <- generate_log_event ;;
  key <- subscript log "service" ;;
  try_except
    ('(partition, offset) <- send topic key log ;;
     (if ((i + 1) mod 10 =? 0)%Z || (i + 1 =? count)%Z then
        print ("  Sent " ++ str_of_Z (i + 1) ++ "/" ++ str_of_Z count ++
               " events (partition: " ++ str_of_Z partition ++
               ", offset: " ++ str_of_Z offset ++ ")")
      else ret tt) ;;
     (if Float.Qltb 0 delay && (i <? count - 1)%Z then sleep delay else ret tt))
    (fun e =>
       print ("Error sending message " ++ str_of_Z (i + 1) ++ ": " ++ str_of_exn e)).

(** The two lines that a round of the loop can print. *)
Definition progress_line (count i partition offset : Z) : string :=
  "  Sent " ++ str_of_Z (i + 1) ++ "/" ++ str_of_Z count ++
  " events (partition: " ++ str_of_Z partition ++
  ", offset: " ++ str_of_Z offset ++ ")".

Definition error_line (i : Z) (e : string) : string :=
  "Error sending message " ++ str_of_Z (i + 1) ++ ": " ++ e.

(** The progress line is due every tenth event and at the last one. *)
Definition due (count i : Z) : bool :=
  ((i + 1) mod 10 =? 0)%Z || (i + 1 =? count)%Z.

Definition delivered (a : delivery) : bool :=
  match a with
  | Delivered _ _ => true
  | _ => false
  end.


(** After a delivery, the round of the event of index [i] calls
    [time.sleep] when the delay is positive and the event is not the last
    one. *)
Definition pauses (count : Z) (delay : Q) (i : Z) : bool :=
  Float.Qltb 0 delay && (i <? count - 1)%Z.

(** What a round does once the broker has answered its send; [fate] is what
    becomes of its call of [time.sleep], when it makes one. *)
Definition reaction (count : Z) (delay : Q) (i : Z) (answer : delivery)
                    (fate : option string) : list effect :=
  match answer with
  | Delivered partition offset =>
      (if due count i then [Print (progress_line count i partition offset)] else []) ++
      (if pauses count delay i then
         Sleep delay :: match fate with
                        | Some e => [Print (error_line i e)]
                        | None => []
                        end
       else [])
  | SendRaises e | GetRaises e => [Print (error_line i e)]
  end.

(** The number of calls of [time.sleep] in the [k] rounds from the event of
    index [i] on, when the next send is the [s]-th that the broker [b]
    answers. *)
Fixpoint naps_in (count : Z) (delay : Q) (b : nat -> delivery)
                 (i : Z) (s : nat) (k : nat) : nat :=
  match k with
  | O => 0
  | S k' =>
      (if delivered (b s) && pauses count delay i then 1 else 0)
      + naps_in count delay b (i + 1) (S s) k'
  end.

(** [Rounds topic count delay b f i s z n tr]: [tr] is what [n] rounds do,
    from the event of index [i] on, when the next send is the [s]-th that
    the broker [b] answers and the next call of [time.sleep] is the [z]-th
    of the fates [f]. *)
Inductive Rounds (topic : string) (count : Z) (delay : Q)
                 (b : nat -> delivery) (f : nat -> option string) :
  Z -> nat -> nat -> nat -> list effect -> Prop :=
| Rounds_nil (i : Z) (s z : nat) : Rounds topic count delay b f i s z 0 []
| Rounds_cons (i : Z) (s z n : nat) (service : string) (log : LogEvent)
              (rest : list effect) :
    getitem log "service" = Some (VStr service) ->
    Rounds topic count delay b f (i + 1) (S s)
           (z + naps_in count delay b i s 1) n rest ->
    Rounds topic count delay b f i s z (S n)
           (Send topic (VStr service) log
            :: reaction count delay i (b s) (f z) ++ rest).

(** What a trace holds of each kind of effect. *)
Fixpoint sleeps_of (tr : list effect) : list Q :=
  match tr with
  | [] => []
  | Sleep seconds :: tr' => seconds :: sleeps_of tr'
  | _ :: tr' => sleeps_of tr'
  end.

(** The answers of the broker [b] to [n] sends, from its [s]-th on. *)
Definition answers (b : nat -> delivery) (s n : nat) : list delivery :=
  map b (seq s n).

Definition first_line (topic : string) (count : Z) : string :=
  "Producing " ++ str_of_Z count ++ " log events to topic '" ++ topic ++ "'...".

Definition last_line (count : Z) : string :=
  "✓ Successfully produced " ++ str_of_Z count ++ " log events".


(** * The program: creating the producer *)

(** A keyword argument of the constructor of [KafkaProducer]: a [str] or
    [None], or one of the two serializers. *)
Inductive setting : Type :=
| Text (s : option string)
| KeySerializer (f : value -> result (option string))
| ValueSerializer (f : LogEvent -> string).

(** What [create_producer] does to the outside: a line on the standard
    output, a text on the standard error, and the call of the constructor
    with its keyword arguments. *)
Inductive output : Type :=
| Stdout (line : string)
| Stderr (text : string)
| Construct (config : dict setting).

(** A function of the script returns, or leaves the interpreter through
    [sys.exit]. *)
Inductive outcome (A : Type) : Type :=
| Returned (a : A)
| Exited (status : Z).

Arguments Returned {A} a.
Arguments Exited {A} status.

(** The exception that the constructor raised: [str(e)], and what
    [traceback.print_exc()] writes for it. *)
Record exception : Type := mkException {
  message : string;
  traceback : string
}.

Declare Scope script_scope.
Delimit Scope script_scope with script.

Module Script.

Definition S (A : Type) : Type := (list output * outcome A)%type.

Definition ret {A} (a : A) : S A := ([], Returned a).

Definition bind {A B} (m : S A) (k : A -> S B) : S B :=
  match m with
  | (out, Returned a) => let (out', r) := k a in ((out ++ out')%list, r)
  | (out, Exited status) => (out, Exited status)
  end.

Definition print (line : string) : S unit := ([Stdout line], Returned tt).

Definition print_exc (e : exception) : S unit := ([Stderr (traceback e)], Returned tt).

Definition exit {A} (status : Z) : S A := ([], Exited status).

End Script.

Notation "x <- m ;; k" := (Script.bind m (fun x => k))
  (at level 100, m at next level, right associativity) : script_scope.
Notation "m ;; k" := (Script.bind m (fun _ => k))
  (at level 100, right associativity) : script_scope.

(** A [str] or [None] as an object, for its truth value. *)
Definition obj (o : option string) : value :=
  match o with
  | Some s => VStr s
  | None => VNone
  end.

(** What an f-string shows of it. *)
Definition format (o : option string) : string :=
  match o with
  | Some s => s
  | None => "None"
  end.

(** [x in l] *)
Definition in_list (x : option string) (l : list string) : bool :=
  match x with
  | Some s => existsb (String.eqb s) l
  | None => false
  end.

Definition nl : string := String (ascii_of_nat 10) EmptyString.

Section Producer.
Variable json_dumps : LogEvent -> string.
Variable Producer : Type.

(** The constructor of kafka-python: it returns a producer or raises. *)
Variable connect : dict setting -> exception + Producer.

Definition KafkaProducer (config : dict setting) : Script.S (exception + Producer) :=
  ([Construct config], Returned (connect config)).

(** Create Kafka producer with optional SASL authentication.  The brokers
    and the protocol are strings; the mechanism, the username and the
    password are strings or [None]. *)
Definition create_producer (bootstrap_servers security_protocol : string)
    (sasl_mechanism sasl_username sasl_password : option string) : Script.S Producer :=
  (let config := [("bootstrap_servers", Text (Some bootstrap_servers));
                  ("value_serializer", ValueSerializer (value_serializer json_dumps));
                  ("key_serializer", KeySerializer key_serializer);
                  ("security_protocol", Text (Some security_protocol))] in
   config <- (if in_list (Some security_protocol) ["SASL_PLAINTEXT"; "SASL_SSL"] then
                (if negb (truthy (obj sasl_mechanism)) then
                   Script.print "Error: SASL mechanism is required when using SASL_PLAINTEXT or SASL_SSL" ;;
                   Script.print "Set KAFKA_SASL_MECHANISM environment variable or use --sasl-mechanism" ;;
                   Script.exit 1
                 else Script.ret tt) ;;
                let config := setitem config "sasl_mechanism" (Text sasl_mechanism) in
                if in_list sasl_mechanism ["PLAIN"; "SCRAM-SHA-256"; "SCRAM-SHA-512"] then
                  (if negb (truthy (obj sasl_username)) || negb (truthy (obj sasl_password)) then
                     Script.print ("Error: Username and password required for "
                                   ++ format sasl_mechanism) ;;
                     Script.print "Set KAFKA_SASL_USERNAME and KAFKA_SASL_PASSWORD environment variables" ;;
                     Script.exit 1
                   else Script.ret tt) ;;
                  let config := setitem config "sasl_plain_username" (Text sasl_username) in
                  let config := setitem config "sasl_plain_password" (Text sasl_password) in
                  Script.ret config
                else Script.ret config
              else Script.ret config) ;;
   answer <- KafkaProducer config ;;
   match answer with
   | inr producer => Script.ret producer
   | inl e =>
       Script.print_exc e ;;
       Script.print (nl ++ "Error creating Kafka producer: " ++ message e) ;;
       Script.print (nl ++ "Please verify your Kafka configuration:") ;;
       Script.print ("  Brokers: " ++ bootstrap_servers) ;;
       Script.print ("  Security Protocol: " ++ security_protocol) ;;
       (if in_list (Some security_protocol) ["SASL_PLAINTEXT"; "SASL_SSL"] then
          Script.print ("  SASL Mechanism: " ++ format sasl_mechanism) ;;
          Script.print ("  SASL Username: " ++
                        (if truthy (obj sasl_username) then format sasl_username
                         else "(not set)"))
        else Script.ret tt) ;;
       Script.exit 1
   end)%script.

End Producer.

(** The keyword arguments of the first call of the constructor, and what
    was written to the two streams. *)
Fixpoint constructed (out : list output) : option (dict setting) :=
  match out with
  | [] => None
  | Construct config :: _ => Some config
  | _ :: out' => constructed out'
  end.

Fixpoint written (out : list output) : list output :=
  match out with
  | [] => []
  | Construct _ :: out' => written out'
  | o :: out' => o :: written out'
  end.

(** The mechanisms that take a username and a password. *)
Definition with_credentials : list string := ["PLAIN"; "SCRAM-SHA-256"; "SCRAM-SHA-512"].
Definition sasl_protocols : list string := ["SASL_PLAINTEXT"; "SASL_SSL"].
Definition base_settings : list string :=
  ["bootstrap_servers"; "value_serializer"; "key_serializer"; "security_protocol"].

(** * Proofs *)

(** ** Rounding to binary64 is monotone *)
Module FloatFacts.
Import Float.
Local Open Scope Q_scope.

Lemma pow2_pos (z : Z) : 0 < 2 ^ z.
Proof. apply Qpower_0_lt. reflexivity. Qed.

Lemma pow2_succ (z : Z) : 2 ^ (z + 1) == 2 * 2 ^ z.
Proof. rewrite Qpower_plus by discriminate. ring. Qed.

Lemma pow2_le (a b : Z) : (a <= b)%Z -> 2 ^ a <= 2 ^ b.
Proof. intros. apply Qpower_le_compat_l; [assumption | discriminate]. Qed.

Lemma pow2_Z (a : Z) : (0 <= a)%Z -> inject_Z (2 ^ a) == 2 ^ a.
Proof. intros. apply (Zpower_Qpower 2 a). assumption. Qed.

Lemma round_half_even_bounds (q : Q) :
  inject_Z (Qfloor q) <= inject_Z (round_half_even q) /\
  inject_Z (round_half_even q) <= inject_Z (Qfloor q) + 1.
Proof.
  unfold round_half_even.
  destruct (Qcompare _ _); [destruct (Z.even _) |..];
    rewrite ?inject_Z_plus; change (inject_Z 1) with 1; split; lra.
Qed.

Lemma round_half_even_mono (x y : Q) :
  x <= y -> (round_half_even x <= round_half_even y)%Z.
Proof.
  intros Hxy.
  pose proof (Qfloor_resp_le _ _ Hxy) as Hf.
  destruct (Z.eq_dec (Qfloor x) (Qfloor y)) as [E | NE].
  - unfold round_half_even. rewrite E.
    destruct (Qcompare (x - inject_Z (Qfloor y)) (1 # 2)) eqn:Cx;
      destruct (Qcompare (y - inject_Z (Qfloor y)) (1 # 2)) eqn:Cy;
      try destruct (Z.even (Qfloor y)); try lia;
      try apply Qeq_alt in Cx; try apply Qeq_alt in Cy;
      try (rewrite <- Qlt_alt in Cx); try (rewrite <- Qlt_alt in Cy);
      try (rewrite <- Qgt_alt in Cx); try (rewrite <- Qgt_alt in Cy);
      exfalso; lra.
  - assert (Qfloor x + 1 <= Qfloor y)%Z by lia.
    pose proof (round_half_even_bounds x) as [_ Hx].
    pose proof (round_half_even_bounds y) as [Hy _].
    change 1 with (inject_Z 1) in Hx.
    rewrite <- inject_Z_plus, <- Zle_Qle in Hx.
    rewrite <- Zle_Qle in Hy. lia.
Qed.

Lemma round_half_even_Z (z : Z) : round_half_even (inject_Z z) = z.
Proof.
  unfold round_half_even. rewrite Qfloor_Z.
  replace (Qcompare (inject_Z z - inject_Z z) (1 # 2)) with Lt; [reflexivity |].
  symmetry. rewrite <- Qlt_alt. lra.
Qed.

Lemma round_half_even_nonneg (q : Q) : 0 <= q -> (0 <= round_half_even q)%Z.
Proof.
  intros H. rewrite <- (round_half_even_Z 0). apply round_half_even_mono. exact H.
Qed.

Lemma Qdiv_lt_cross (x y u v : Q) :
  0 < y -> 0 < v -> x * v < u * y -> x / y < u / v.
Proof.
  intros Hy Hv H.
  apply Qlt_shift_div_r; [assumption |].
  setoid_replace (u / v * y) with ((u * y) / v) by (field; lra).
  apply Qlt_shift_div_l; assumption.
Qed.

Lemma Qdiv_le_cross (x y u v : Q) :
  0 < y -> 0 < v -> x * v <= u * y -> x / y <= u / v.
Proof.
  intros Hy Hv H.
  apply Qle_shift_div_r; [assumption |].
  setoid_replace (u / v * y) with ((u * y) / v) by (field; lra).
  apply Qle_shift_div_l; assumption.
Qed.

Lemma log2_bounds (n : Z) : (0 < n)%Z ->
  2 ^ Z.log2 n <= inject_Z n /\ inject_Z n < 2 * 2 ^ Z.log2 n.
Proof.
  intros Hn. destruct (Z.log2_spec n Hn) as [H1 H2].
  pose proof (Z.log2_nonneg n) as H0.
  split.
  - rewrite <- pow2_Z by assumption. rewrite <- Zle_Qle. assumption.
  - rewrite <- pow2_succ. rewrite <- pow2_Z by lia. rewrite <- Zlt_Qlt.
    exact H2.
Qed.

(** [Qilog2] is the integer logarithm: [2^l <= q < 2^(l+1)]. *)
Lemma Qilog2_spec (q : Q) :
  0 < q -> 2 ^ Qilog2 q <= q /\ q < 2 ^ (Qilog2 q + 1).
Proof.
  intros Hq. destruct q as [n d].
  assert (Hn : (0 < n)%Z) by (unfold Qlt in Hq; simpl in Hq; lia).
  unfold Qilog2. cbn [Qnum Qden].
  set (ln := Z.log2 n). set (ld := Z.log2 (Z.pos d)).
  destruct (log2_bounds Hn) as [Hn1 Hn2]. fold ln in Hn1, Hn2.
  destruct (@log2_bounds (Z.pos d) eq_refl) as [Hd1 Hd2]. fold ld in Hd1, Hd2.
  pose proof (pow2_pos ln) as Pa. pose proof (pow2_pos ld) as Pb.
  assert (Hc : 2 ^ (ln - ld) == 2 ^ ln / 2 ^ ld)
    by (apply Qpower_minus; discriminate).
  assert (Hqd : n # d == inject_Z n / inject_Z (Z.pos d)) by apply Qmake_Qdiv.
  assert (PD : 0 < inject_Z (Z.pos d)) by reflexivity.
  destruct (Qle_bool (2 ^ (ln - ld)) (n # d)) eqn:T.
  - apply Qle_bool_iff in T. split; [assumption |].
    rewrite pow2_succ, Hc, Hqd.
    setoid_replace (2 * (2 ^ ln / 2 ^ ld)) with ((2 * 2 ^ ln) / 2 ^ ld)
      by (field; lra).
    apply Qdiv_lt_cross; try assumption.
    apply Qle_lt_trans with (inject_Z n * inject_Z (Z.pos d)).
    + apply Qmult_le_l; [lra | assumption].
    + apply Qmult_lt_r; assumption.
  - assert (T' : n # d < 2 ^ (ln - ld)).
    { apply Qnot_le_lt. intro A. apply Qle_bool_iff in A. congruence. }
    replace (ln - ld - 1 + 1)%Z with (ln - ld)%Z by lia.
    split; [| assumption].
    assert (E : 2 ^ (ln - ld - 1) == 2 ^ ln / (2 * 2 ^ ld)).
    { rewrite Qpower_minus by discriminate. rewrite Hc.
      change (2 ^ 1) with 2. field. lra. }
    rewrite E, Hqd.
    apply Qdiv_le_cross; try lra.
    apply Qle_trans with (inject_Z n * inject_Z (Z.pos d)).
    + apply Qmult_le_compat_r; lra.
    + apply Qmult_le_l; lra.
Qed.

Lemma Qilog2_mono (x y : Q) : 0 < x -> x <= y -> (Qilog2 x <= Qilog2 y)%Z.
Proof.
  intros Hx Hxy.
  destruct (Qilog2_spec Hx) as [A _].
  destruct (@Qilog2_spec y) as [_ B]; [lra |].
  assert (C : 2 ^ Qilog2 x < 2 ^ (Qilog2 y + 1)) by lra.
  apply Qpower_lt_compat_l_inv in C; [lia | reflexivity].
Qed.

Lemma ulp_exponent_mono (x y : Q) :
  0 < x -> x <= y -> (ulp_exponent x <= ulp_exponent y)%Z.
Proof.
  intros Hx Hxy. pose proof (Qilog2_mono Hx Hxy). unfold ulp_exponent. lia.
Qed.

(** The significand has at most 53 bits... *)
Lemma scaled_lt_pow53 (x : Q) : 0 < x -> x / 2 ^ ulp_exponent x < 2 ^ 53.
Proof.
  intros Hx. destruct (Qilog2_spec Hx) as [_ B].
  pose proof (pow2_pos (ulp_exponent x)) as P.
  apply Qlt_shift_div_r; [assumption |].
  rewrite <- Qpower_plus by discriminate.
  apply Qlt_le_trans with (1 := B). apply pow2_le. unfold ulp_exponent. lia.
Qed.

(** ... and exactly 53 outside of the subnormal range. *)
Lemma scaled_ge_pow52 (y : Q) :
  0 < y -> (-1074 < ulp_exponent y)%Z -> 2 ^ 52 <= y / 2 ^ ulp_exponent y.
Proof.
  intros Hy Hn. destruct (Qilog2_spec Hy) as [A _].
  pose proof (pow2_pos (ulp_exponent y)) as P.
  apply Qle_shift_div_l; [assumption |].
  rewrite <- Qpower_plus by discriminate.
  apply Qle_trans with (2 := A). apply pow2_le. unfold ulp_exponent in *. lia.
Qed.

Lemma round_pos_mono (x y : Q) : 0 < x -> x <= y -> round_pos x <= round_pos y.
Proof.
  intros Hx Hxy. assert (Hy : 0 < y) by lra.
  unfold round_pos. rewrite !Qred_correct.
  pose proof (ulp_exponent_mono Hx Hxy) as He.
  pose proof (pow2_pos (ulp_exponent x)) as Px.
  pose proof (pow2_pos (ulp_exponent y)) as Py.
  destruct (Z.eq_dec (ulp_exponent x) (ulp_exponent y)) as [E | NE].
  - rewrite E in *. apply Qmult_le_compat_r; [| lra].
    rewrite <- Zle_Qle. apply round_half_even_mono.
    apply Qmult_le_compat_r; [assumption |].
    apply Qlt_le_weak, Qinv_lt_0_compat. assumption.
  - (* across a binade: x rounds to at most 2^53 of its units, y to at
       least 2^52 of its own, which are at least twice as large *)
    apply Qle_trans with (2 ^ 53 * 2 ^ ulp_exponent x).
    { apply Qmult_le_compat_r; [| lra].
      rewrite <- (pow2_Z (a := 53)) by lia. rewrite <- Zle_Qle.
      rewrite <- (round_half_even_Z (2 ^ 53)). apply round_half_even_mono.
      rewrite pow2_Z by lia. apply Qlt_le_weak, scaled_lt_pow53. assumption. }
    apply Qle_trans with (2 ^ 52 * 2 ^ ulp_exponent y).
    { rewrite <- !Qpower_plus by discriminate. apply pow2_le. lia. }
    apply Qmult_le_compat_r; [| lra].
    rewrite <- (pow2_Z (a := 52)) by lia. rewrite <- Zle_Qle.
    rewrite <- (round_half_even_Z (2 ^ 52)). apply round_half_even_mono.
    rewrite pow2_Z by lia. apply scaled_ge_pow52; [assumption |].
    unfold ulp_exponent in *. lia.
Qed.

Lemma round_pos_nonneg (x : Q) : 0 < x -> 0 <= round_pos x.
Proof.
  intros Hx. unfold round_pos. rewrite Qred_correct.
  pose proof (pow2_pos (ulp_exponent x)) as P.
  apply Qmult_le_0_compat; [| lra].
  change 0 with (inject_Z 0). rewrite <- Zle_Qle.
  apply round_half_even_nonneg.
  apply Qle_shift_div_l; [assumption | lra].
Qed.

Lemma Qnum_sign (q : Q) :
  match Qnum q with
  | Z0 => q == 0
  | Zpos _ => 0 < q
  | Zneg _ => q < 0
  end.
Proof.
  destruct q as [[|p|p] d]; cbn [Qnum]; unfold Qeq, Qlt; simpl; lia.
Qed.

Lemma binary64_mono (x y : Q) : 0 <= x -> x <= y -> binary64 x <= binary64 y.
Proof.
  intros Hx Hxy. unfold binary64.
  pose proof (Qnum_sign x) as Sx. pose proof (Qnum_sign y) as Sy.
  destruct (Qnum x); destruct (Qnum y); try lra.
  - apply round_pos_nonneg. assumption.
  - apply round_pos_mono; assumption.
Qed.

Lemma unit_float_range (k : N) :
  0 <= unit_float k /\ unit_float k <= 9007199254740991 # 9007199254740992.
Proof.
  unfold unit_float.
  assert (H : (k mod 2 ^ 53 < 2 ^ 53)%N) by (apply N.mod_lt; discriminate).
  change (2 ^ 53)%N with 9007199254740992%N in *.
  change (2 ^ 53)%positive with 9007199254740992%positive.
  generalize dependent (k mod 9007199254740992)%N. intros m H.
  unfold Qle. cbn [Qnum Qden]. lia.
Qed.

(** The amount in cents: [uniform(9.99, 999.99)] lies between the two
    floats, whatever the draw, and so does its rounding to cents. *)
Lemma uniform_amount_cents (k : N) :
  (999 <= round_half_even
            (fadd (binary64 9.99)
               (fmul (fsub (binary64 999.99) (binary64 9.99)) (unit_float k))
             * 10 ^ 2)
       <= 99999)%Z.
Proof.
  destruct (unit_float_range k) as [Hlo Hhi].
  set (r := unit_float k) in *.
  set (rmax := 9007199254740991 # 9007199254740992) in *.
  unfold fadd, fmul.
  replace (fsub (binary64 999.99) (binary64 9.99)) with 990
    by (vm_compute; reflexivity).
  assert (P0 : 0 <= binary64 (990 * r)).
  { change 0 with (binary64 0) at 1. apply binary64_mono; lra. }
  assert (P1 : binary64 (990 * r) <= binary64 (990 * rmax)).
  { apply binary64_mono; lra. }
  assert (PA : 0 <= binary64 9.99) by (vm_compute; discriminate).
  split.
  - apply Z.le_trans with
      (round_half_even (binary64 (binary64 9.99 + 0) * 10 ^ 2)).
    + apply Z.leb_le. vm_compute. reflexivity.
    + apply round_half_even_mono. apply Qmult_le_compat_r; [| discriminate].
      apply binary64_mono; lra.
  - apply Z.le_trans with
      (round_half_even
         (binary64 (binary64 9.99 + binary64 (990 * rmax)) * 10 ^ 2)).
    + apply round_half_even_mono. apply Qmult_le_compat_r; [| discriminate].
      apply binary64_mono; lra.
    + apply Z.leb_le. vm_compute. reflexivity.
Qed.

Lemma round_half_even_error (y : Q) :
  y - (1 # 2) <= inject_Z (round_half_even y) /\
  inject_Z (round_half_even y) <= y + (1 # 2).
Proof.
  pose proof (Qfloor_le y) as Hlo. pose proof (Qlt_floor y) as Hhi.
  rewrite inject_Z_plus in Hhi. change (inject_Z 1) with 1 in Hhi.
  unfold round_half_even.
  destruct (Qcompare (y - inject_Z (Qfloor y)) (1 # 2)) eqn:C.
  - apply Qeq_alt in C.
    destruct (Z.even (Qfloor y)); rewrite ?inject_Z_plus;
      change (inject_Z 1) with 1; split; lra.
  - rewrite <- Qlt_alt in C. split; lra.
  - rewrite <- Qgt_alt in C. rewrite inject_Z_plus. change (inject_Z 1) with 1.
    split; lra.
Qed.

Lemma round_half_even_near (y : Q) (n : Z) :
  inject_Z n - (1 # 2) < y -> y < inject_Z n + (1 # 2) -> round_half_even y = n.
Proof.
  intros Hlo Hhi. destruct (round_half_even_error y) as [A B].
  assert (L : inject_Z n - 1 < inject_Z (round_half_even y)) by lra.
  assert (U : inject_Z (round_half_even y) < inject_Z n + 1) by lra.
  change 1 with (inject_Z 1) in L, U.
  unfold Qminus in L. rewrite <- inject_Z_opp, <- inject_Z_plus in L.
  rewrite <- inject_Z_plus in U.
  rewrite <- Zlt_Qlt in L, U. lia.
Qed.

(** Below 1024 a float is within [2^-44] of the number it rounds. *)
Lemma binary64_error_below_1024 (q : Q) :
  0 < q -> q < 1024 ->
  q - (1 # 2 ^ 44) <= binary64 q /\ binary64 q <= q + (1 # 2 ^ 44).
Proof.
  intros Hq Hlt. unfold binary64.
  pose proof (Qnum_sign q) as S. destruct (Qnum q); try lra.
  unfold round_pos. rewrite Qred_correct.
  set (e := ulp_exponent q).
  assert (He : (e <= -43)%Z).
  { destruct (Qilog2_spec Hq) as [A _].
    assert (C : 2 ^ Qilog2 q < 2 ^ 10) by (change (2 ^ 10) with 1024; lra).
    apply Qpower_lt_compat_l_inv in C; [| reflexivity].
    unfold e, ulp_exponent. lia. }
  pose proof (pow2_pos e) as P.
  assert (Pe : 2 ^ e <= 1 # 2 ^ 43).
  { change (1 # 2 ^ 43) with (2 ^ (-43)). apply pow2_le. exact He. }
  destruct (round_half_even_error (q / 2 ^ e)) as [A B].
  assert (E : q == q / 2 ^ e * 2 ^ e) by (field; lra).
  set (t := q / 2 ^ e) in *. set (m := inject_Z (round_half_even t)) in *.
  assert (A' : (t - (1 # 2)) * 2 ^ e <= m * 2 ^ e)
    by (apply Qmult_le_compat_r; lra).
  assert (B' : m * 2 ^ e <= (t + (1 # 2)) * 2 ^ e)
    by (apply Qmult_le_compat_r; lra).
  assert (H44 : (1 # 2) * 2 ^ e <= 1 # 2 ^ 44).
  { setoid_replace (1 # 2 ^ 44) with ((1 # 2) * (1 # 2 ^ 43)) by reflexivity.
    apply Qmult_le_l; [reflexivity | exact Pe]. }
  split; lra.
Qed.

Lemma cents_range (n : Z) :
  (999 <= n <= 99999)%Z -> 9.99 <= inject_Z n / 100 /\ inject_Z n / 100 <= 999.99.
Proof.
  intros [Hlo Hhi].
  rewrite (Zle_Qle 999 n) in Hlo. rewrite (Zle_Qle n 99999) in Hhi.
  change (inject_Z 999) with 999 in Hlo. change (inject_Z 99999) with 99999 in Hhi.
  split.
  - apply Qle_shift_div_l; [reflexivity |]. setoid_replace (9.99 * 100) with 999 by reflexivity. exact Hlo.
  - apply Qle_shift_div_r; [reflexivity |]. setoid_replace (999.99 * 100) with 99999 by reflexivity. exact Hhi.
Qed.

(** A float that holds a whole number of cents is between the floats 9.99
    and 999.99, and [round(x, 2)] gives it back. *)
Lemma cents_between (n : Z) :
  (999 <= n <= 99999)%Z ->
  binary64 9.99 <= binary64 (inject_Z n / 100) /\
  binary64 (inject_Z n / 100) <= binary64 999.99.
Proof.
  intros H. destruct (cents_range H) as [Hlo Hhi].
  split; apply binary64_mono; try assumption; try discriminate. lra.
Qed.

Lemma cents_fixed (n : Z) :
  (999 <= n <= 99999)%Z ->
  round (binary64 (inject_Z n / 100)) 2 = binary64 (inject_Z n / 100).
Proof.
  intros H. destruct (cents_range H) as [Hlo Hhi].
  destruct (@binary64_error_below_1024 (inject_Z n / 100)) as [A B]; try lra.
  assert (T : (1 # 2 ^ 44) * 100 < 1 # 2) by reflexivity.
  unfold round. change (10 ^ 2) with 100.
  rewrite (@round_half_even_near _ n); [reflexivity | |].
  - assert (E : inject_Z n == inject_Z n / 100 * 100) by (field; lra). lra.
  - assert (E : inject_Z n == inject_Z n / 100 * 100) by (field; lra). lra.
Qed.

End FloatFacts.

(** ** The model at work *)

Section Examples.
Import Float.
Local Open Scope Q_scope.

(** The float nearest to 0.7 is [6305039478318694 * 2^-53]. *)
Example binary64_0_7 : binary64 0.7 == 6305039478318694 # 2 ^ 53.
Proof. vm_compute. reflexivity. Qed.

(** [0.1 + 0.2 == 0.30000000000000004], and not [0.3]. *)
Example fadd_inexact :
  fadd (binary64 0.1) (binary64 0.2) = binary64 0.30000000000000004 /\
  fadd (binary64 0.1) (binary64 0.2) <> binary64 0.3.
Proof. split; [vm_compute; reflexivity | vm_compute; discriminate]. Qed.

(** The least positive float is [2^-1074]; half of it rounds to zero. *)
Example binary64_subnormal :
  binary64 (2 ^ (-1074)) == 2 ^ (-1074) /\ binary64 (2 ^ (-1075)) == 0.
Proof. split; vm_compute; reflexivity. Qed.

(** [round(2.675, 2) == 2.67], as the float 2.675 is below the decimal, and
    [round(0.125, 2) == 0.12], a tie that goes to even. *)
Example round_examples :
  round (binary64 2.675) 2 = binary64 2.67 /\
  round (binary64 0.125) 2 = binary64 0.12.
Proof. split; vm_compute; reflexivity. Qed.

(** The running sums of the weights of the levels. *)
Example accumulate_LOG_LEVELS :
  accumulate (values LOG_LEVELS)
  = [binary64 0.7; binary64 0.8999999999999999; binary64 0.9999999999999999].
Proof. vm_compute. reflexivity. Qed.

Example isoformat_examples :
  datetime_.isoformat (mkDatetime 2025 1 2 3 4 5 0) = "2025-01-02T03:04:05+00:00" /\
  datetime_.isoformat (mkDatetime 2025 1 2 3 4 5 678)
  = "2025-01-02T03:04:05.000678+00:00" /\
  timestamp_of noon = "2025-01-01T12:00:00Z".
Proof. repeat split; vm_compute; reflexivity. Qed.

Example hex_example : hex (to_bytes_little 4 0x12abcdef) = "efcdab12".
Proof. reflexivity. Qed.

Example replace_example : replace "a+b+c" "+" " plus " = "a plus b plus c".
Proof. reflexivity. Qed.

(** The events of the sample worlds. *)
Example lowest_event_eq :
  lowest_event = [
    ("timestamp", VStr "2025-01-01T12:00:00Z");
    ("level", VStr "INFO");
    ("service", VStr "web-api");
    ("host", VStr "api-server-01");
    ("request_id", VStr "req-00000000");
    ("message", VStr "Request processed successfully");
    ("duration_ms", VInt 10);
    ("status_code", VInt 200);
    ("user_id", VStr "user-10000");
    ("ip_address", VStr "192.168.1.1")
  ].
Proof. reflexivity. Qed.

Example highest_event_eq :
  highest_event = [
    ("timestamp", VStr "2025-01-01T12:00:00Z");
    ("level", VStr "ERROR");
    ("service", VStr "analytics-service");
    ("host", VStr "analytics-server-01");
    ("request_id", VStr "req-ffffffff");
    ("message", VStr "Invalid input data");
    ("error", VStr "ValidationError");
    ("status_code", VInt 409);
    ("duration_ms", VInt 8435)
  ].
Proof. reflexivity. Qed.

Example payment_event_eq :
  payment_event = [
    ("timestamp", VStr "2025-01-01T12:00:00Z");
    ("level", VStr "INFO");
    ("service", VStr "payment-service");
    ("host", VStr "payment-server-01");
    ("request_id", VStr "req-00000000");
    ("message", VStr "Request processed successfully");
    ("duration_ms", VInt 10);
    ("status_code", VInt 200);
    ("user_id", VStr "user-10000");
    ("amount", VFloat (binary64 9.99))
  ].
Proof. vm_compute. reflexivity. Qed.

Example lowest_event_later_eq :
  lowest_event_later
  = setitem lowest_event "timestamp" (VStr "2025-01-01T12:00:01Z").
Proof. reflexivity. Qed.

End Examples.

(** ** Rules of the program logic *)

Lemma bisect_bounds (a : list Q) (x : Q) (lo hi : nat) :
  lo <= hi -> lo <= bisect a x lo hi <= hi.
Proof.
  funelim (bisect a x lo hi); intros Hle; try clear Heqcall.
  - lia.
  - assert ((lo + hi) / 2 < hi) by (apply Nat.Div0.div_lt_upper_bound; lia).
    assert (lo <= (lo + hi) / 2) by (apply Nat.div_le_lower_bound; lia).
    specialize (H ltac:(lia)). lia.
  - assert ((lo + hi) / 2 < hi) by (apply Nat.Div0.div_lt_upper_bound; lia).
    assert (lo <= (lo + hi) / 2) by (apply Nat.div_le_lower_bound; lia).
    specialize (H ltac:(lia)). lia.
Qed.

(** The search reads the list between [lo] and [hi] only. *)
Lemma bisect_reads (a a' : list Q) (x : Q) (lo hi : nat) :
  (forall i, lo <= i < hi -> nth i a 0%Q = nth i a' 0%Q) ->
  bisect a x lo hi = bisect a' x lo hi.
Proof.
  remember (hi - lo) as n eqn:En. revert lo hi En.
  induction n as [n IH] using lt_wf_ind. intros lo hi En Hsame.
  rewrite (bisect_equation_1 a), (bisect_equation_1 a').
  destruct (lt_dec lo hi) as [Hlt | Hge]; [| reflexivity].
  cbn [bisect_unfold_clause_1].
  assert ((lo + hi) / 2 < hi) by (apply Nat.Div0.div_lt_upper_bound; lia).
  assert (lo <= (lo + hi) / 2) by (apply Nat.div_le_lower_bound; lia).
  rewrite <- Hsame by lia.
  destruct (Float.Qltb x (nth ((lo + hi) / 2) a 0%Q));
    cbn [bisect_unfold_clause_1_clause_1];
    (eapply IH; [| reflexivity | intros i Hi; apply Hsame; lia]); lia.
Qed.

Lemma accumulate_from_length (acc : Q) (l : list Q) :
  length (accumulate_from acc l) = length l.
Proof.
  revert acc. induction l as [| x l IH]; intros acc; simpl; [| rewrite IH]; reflexivity.
Qed.

Lemma accumulate_length (l : list Q) : length (accumulate l) = length l.
Proof.
  destruct l; simpl; [| rewrite accumulate_from_length]; reflexivity.
Qed.

Lemma nth_error_last {A} (l : list A) (d : A) :
  l <> [] -> nth_error l (length l - 1) = Some (last l d).
Proof.
  induction l as [| x l IH]; intros H; [congruence |].
  destruct l as [| y l]; [reflexivity |].
  replace (length (x :: y :: l) - 1) with (S (length (y :: l) - 1)) by (simpl; lia).
  cbn [nth_error]. rewrite IH by discriminate. reflexivity.
Qed.

Lemma randint_range (a b : Z) (k : N) :
  (a <= b)%Z -> (a <= a + Z.of_N k mod (b - a + 1) <= b)%Z.
Proof.
  intros H. pose proof (Z.mod_pos_bound (Z.of_N k) (b - a + 1)). lia.
Qed.

Section Rules.
Variables (g : nat -> N) (b : nat -> delivery) (n : nat) (tr : list effect).
Local Abbreviation WP := (wp g b n tr).

Lemma wp_ret {A} (a : A) (Q : A -> Prop) : Q a -> WP (ret a) Q.
Proof. intros H w C. exists a, w. auto. Qed.

Lemma wp_bind {A B} (m : M A) (k : A -> M B) (P : A -> Prop) (Q : B -> Prop) :
  WP m P -> (forall a, P a -> WP (k a) Q) -> WP (bind m k) Q.
Proof.
  intros Hm Hk w C.
  destruct (Hm w C) as (a & w' & E & C' & Pa).
  destruct (Hk a Pa w' C') as (x & w'' & E' & C'' & Qx).
  exists x, w''. unfold bind. rewrite E. auto.
Qed.

Lemma wp_weaken {A} (m : M A) (P Q : A -> Prop) :
  WP m P -> (forall a, P a -> Q a) -> WP m Q.
Proof.
  intros Hm H w C. destruct (Hm w C) as (a & w' & E & C' & Pa).
  exists a, w'. auto.
Qed.

Lemma wp_draw : WP random.draw (fun k => exists i, k = g i).
Proof.
  intros w (Hg & Hb & Hn & Ht). eexists _, _. split; [reflexivity |].
  split; [repeat split; assumption |].
  exists (drawn w). rewrite Hg. reflexivity.
Qed.

Lemma wp_now : WP datetime_.now (fun _ => True).
Proof.
  intros w (Hg & Hb & Hn & Ht). eexists _, _. split; [reflexivity |].
  split; [repeat split; assumption | exact I].
Qed.

Lemma wp_subscript {V} (d : dict V) (k : string) (v : V) :
  getitem d k = Some v -> WP (subscript d k) (eq v).
Proof. intros H. unfold subscript. rewrite H. apply wp_ret. reflexivity. Qed.

Lemma wp_index {A} (l : list A) (i : nat) (x : A) :
  nth_error l i = Some x -> WP (index l i) (eq x).
Proof. intros H. unfold index. rewrite H. apply wp_ret. reflexivity. Qed.

Lemma wp_random : WP random.random (fun r => exists k, r = unit_float k).
Proof.
  unfold random.random. eapply wp_bind; [apply wp_draw |].
  intros k _. apply wp_ret. exists k. reflexivity.
Qed.

Lemma wp_randbelow (bound : N) :
  WP (random._randbelow bound) (fun r => exists i, r = (g i mod bound)%N).
Proof.
  unfold random._randbelow. eapply wp_bind; [apply wp_draw |].
  intros k (i & ->). apply wp_ret. exists i. reflexivity.
Qed.

Lemma wp_randint (lo hi : Z) :
  (lo <= hi)%Z ->
  WP (random.randint lo hi)
     (fun z => exists i, z = (lo + Z.of_N (g i) mod (hi - lo + 1))%Z).
Proof.
  intros H. unfold random.randint. cbv zeta.
  destruct (Z.ltb_spec 0 (hi + 1 - lo)); [| lia].
  eapply wp_bind; [apply wp_randbelow |].
  intros r (i & ->). apply wp_ret. exists i.
  rewrite N2Z.inj_mod, Z2N.id by lia.
  replace (hi + 1 - lo)%Z with (hi - lo + 1)%Z by lia. reflexivity.
Qed.

Lemma wp_randint_range (lo hi : Z) :
  (lo <= hi)%Z -> WP (random.randint lo hi) (fun z => (lo <= z <= hi)%Z).
Proof.
  intros H. eapply wp_weaken; [apply wp_randint; assumption |].
  intros z (i & ->). apply randint_range. assumption.
Qed.

Lemma wp_choice {A} (seq : list A) :
  seq <> [] -> WP (random.choice seq) (fun x => In x seq).
Proof.
  intros H. unfold random.choice. destruct seq as [| x0 seq0]; [congruence |].
  set (seq := x0 :: seq0) in *.
  change (length seq =? 0)%nat with false. cbv iota.
  eapply wp_bind; [apply wp_randbelow |].
  intros ? (i & ->). generalize (g i). intros k.
  assert (Hk : N.to_nat (k mod N.of_nat (length seq)) < length seq).
  { assert (k mod N.of_nat (length seq) < N.of_nat (length seq))%N
      by (apply N.mod_lt; discriminate).
    lia. }
  destruct (nth_error seq (N.to_nat (k mod N.of_nat (length seq)))) as [x |] eqn:E.
  - eapply wp_weaken; [apply wp_index; exact E |].
    intros a <-. eapply nth_error_In. exact E.
  - apply nth_error_None in E. lia.
Qed.

Lemma wp_randbytes (len : nat) :
  WP (random.randbytes len)
     (fun bs => exists k, bs = to_bytes_little len (k mod 2 ^ (8 * N.of_nat len))).
Proof.
  unfold random.randbytes. eapply wp_bind; [apply wp_draw |].
  intros k _. apply wp_ret. exists k. reflexivity.
Qed.

Lemma wp_uniform (lo hi : Q) :
  WP (random.uniform lo hi)
     (fun x => exists k,
        x = Float.fadd lo (Float.fmul (Float.fsub hi lo) (unit_float k))).
Proof.
  unfold random.uniform. eapply wp_bind; [apply wp_random |].
  intros r (k & ->). apply wp_ret. exists k. reflexivity.
Qed.

Lemma wp_choices {A} (population : list A) (weights : list Q) :
  population <> [] ->
  length weights = length population ->
  (0 < Float.add (last (accumulate weights) 0) 0)%Q ->
  Float.isfinite (Float.add (last (accumulate weights) 0%Q) 0%Q) = true ->
  WP (random.choices population weights)
     (fun picked => exists x, picked = [x] /\ In x population).
Proof.
  intros Hne Hlen Htotal Hfinite. unfold random.choices.
  rewrite accumulate_length, Hlen, Nat.eqb_refl. cbn [negb].
  assert (Hcum : accumulate weights <> []).
  { intro E. apply (f_equal (@length Q)) in E.
    rewrite accumulate_length, Hlen in E. destruct population; [congruence | discriminate]. }
  eapply wp_bind.
  { apply wp_index. rewrite <- Hlen, <- accumulate_length.
    apply nth_error_last with (d := 0%Q). exact Hcum. }
  intros c <-.
  destruct (Qle_bool (Float.add (last (accumulate weights) 0%Q) 0) 0) eqn:T.
  { apply Qle_bool_iff in T. lra. }
  rewrite Hfinite. cbn [negb].
  eapply wp_bind; [apply wp_random |].
  intros r _.
  match goal with |- context [index population ?i] => set (pos := i) end.
  assert (Hpos : pos < length population).
  { pose proof (bisect_bounds (accumulate weights)
                  (Float.fmul r (Float.add (last (accumulate weights) 0%Q) 0))
                  (lo := 0) (hi := length population - 1) ltac:(lia)).
    fold pos in H. destruct population; [congruence | simpl in *; lia]. }
  destruct (nth_error population pos) as [x |] eqn:E.
  - eapply wp_bind; [apply wp_index; exact E |].
    intros a <-. apply wp_ret. exists x. split; [reflexivity |].
    eapply nth_error_In. exact E.
  - apply nth_error_None in E. lia.
Qed.

Lemma wp_weighted_choice (choices : dict Q) :
  choices <> [] ->
  (0 < total_weight choices)%Q ->
  Float.isfinite (total_weight choices) = true ->
  WP (weighted_choice choices) (fun item => In item (keys choices)).
Proof.
  intros Hne Htotal Hfinite. unfold weighted_choice.
  eapply wp_bind.
  { apply wp_choices.
    - destruct choices; [congruence | discriminate].
    - unfold values, keys. rewrite !length_map. reflexivity.
    - exact Htotal.
    - exact Hfinite. }
  intros picked (x & -> & Hx). eapply wp_weaken; [apply wp_index; reflexivity |].
  intros a <-. exact Hx.
Qed.

End Rules.

(** ** What the synthesizer returns *)

Lemma hosts_of_service (service : string) :
  In service SERVICES ->
  exists hosts, getitem HOSTS service = Some hosts /\ hosts <> [].
Proof.
  intros H.
  repeat (destruct H as [<- | H]; [eexists; split; [reflexivity | discriminate] |]).
  destruct H.
Qed.

Section Synthesizer.
Variables (g : nat -> N) (b : nat -> delivery) (n : nat) (tr : list effect).
Local Abbreviation WP := (wp g b n tr).

(** An optional field: [if c: log[key] = ...]. *)
Lemma wp_optional (c : bool) (body : M LogEvent) (log : LogEvent) (key : string)
    (P : option value -> Prop) :
  (c = true -> WP body (fun log' => exists v, P (Some v) /\ log' = setitem log key v)) ->
  P None ->
  WP (if c then body else ret log)
     (fun log' => exists v, P v /\ log' = with_field log key v).
Proof.
  intros Hbody Hnone. destruct c.
  - eapply wp_weaken; [apply Hbody; reflexivity |].
    intros log' (v & Hv & ->). exists (Some v). auto.
  - apply wp_ret. exists None. auto.
Qed.

Lemma wp_user_id (log : LogEvent) :
  WP (u <- random.randint 10000 99999 ;;
      ret (setitem log "user_id" (VStr ("user-" ++ str_of_Z u))))
     (fun log' => exists v, user_field (Some v) /\ log' = setitem log "user_id" v).
Proof.
  eapply wp_bind; [apply wp_randint_range; lia |].
  intros u Hu. apply wp_ret. eexists. split; [| reflexivity].
  intros x [= <-]. exists u. auto.
Qed.

Lemma user_field_None : user_field None.
Proof. intros x [=]. Qed.

(** The synthesizer never raises, touches neither the broker nor the trace,
    and returns a record of one of the three shapes. *)
Lemma generate_log_event_spec : WP generate_log_event (GenEvent g).
Proof.
  unfold generate_log_event.
  eapply wp_bind;
    [apply wp_weighted_choice;
       [discriminate | vm_compute; reflexivity | vm_compute; reflexivity] |].
  intros level Hlevel.
  eapply wp_bind; [apply wp_choice; discriminate |]. intros service Hservice.
  destruct (hosts_of_service Hservice) as (hosts & Hhosts & Hne).
  eapply wp_bind; [apply wp_subscript; exact Hhosts |]. intros ? <-.
  eapply wp_bind; [apply wp_choice; exact Hne |]. intros host Hhost.
  eapply wp_bind; [apply wp_now |]. intros now _.
  eapply wp_bind; [apply wp_randbytes |]. intros token (k & ->).
  cbv zeta.
  match goal with
  | |- wp _ _ _ _ (if _ then ?m1 else _) _ =>
      match m1 with context [setitem ?l "message"] => set (log0 := l) end
  end.
  eapply wp_weaken with (P := Body g service log0 level);
    [| intros log HB;
       eapply gen_event; [exact Hservice | exact Hhosts | exact Hhost |];
       subst log0; exact HB].
  clearbody log0.
  destruct Hlevel as [<- | [<- | [<- | []]]]; cbn [String.eqb Ascii.eqb Bool.eqb].
  - (* INFO *)
    eapply wp_bind; [apply wp_choice; discriminate |]. intros message Hm.
    eapply wp_bind; [apply wp_randint_range; lia |]. intros duration Hd.
    eapply wp_bind; [apply wp_subscript; reflexivity |]. intros codes <-.
    eapply wp_bind; [apply wp_choice; discriminate |]. intros code Hc.
    eapply wp_bind; [apply wp_random |]. intros r1 _.
    eapply wp_bind.
    { apply wp_optional with (P := user_field);
        [intros _; apply wp_user_id | apply user_field_None]. }
    intros log1 (user & Huser & ->).
    eapply wp_bind; [apply wp_random |]. intros r2 _.
    eapply wp_bind.
    { apply wp_optional with (P := ip_field g service).
      - intros Hc2. apply andb_prop in Hc2 as [_ Hs]. apply String.eqb_eq in Hs.
        eapply wp_bind; [apply wp_randint; lia |]. intros x (i & ->).
        eapply wp_bind; [apply wp_randint; lia |]. intros y (j & ->).
        apply wp_ret. eexists. split; [| reflexivity].
        intros v [= <-]. split; [assumption |]. exists i, j. reflexivity.
      - intros x [=]. }
    intros log2 (ip & Hip & ->).
    eapply wp_bind; [apply wp_random |]. intros r3 _.
    eapply wp_bind.
    { apply wp_optional with (P := amount_field service).
      - intros Hc3. apply andb_prop in Hc3 as [_ Hs]. apply String.eqb_eq in Hs.
        eapply wp_bind; [apply wp_uniform |]. intros x (k' & ->).
        apply wp_ret. eexists. split; [| reflexivity].
        intros v [= <-]. split; [assumption |]. exists k'. reflexivity.
      - intros x [=]. }
    intros log3 (amount & Hamount & ->).
    apply wp_ret. apply body_info; assumption.
  - (* WARN *)
    eapply wp_bind; [apply wp_choice; discriminate |]. intros message Hm.
    eapply wp_bind; [apply wp_subscript; reflexivity |]. intros codes <-.
    eapply wp_bind; [apply wp_choice; discriminate |]. intros code Hc.
    eapply wp_bind; [apply wp_random |]. intros r1 _.
    eapply wp_bind.
    { apply wp_optional with (P := slow_field).
      - intros _. eapply wp_bind; [apply wp_randint_range; lia |].
        intros d Hd. apply wp_ret. eexists. split; [| reflexivity].
        intros v [= <-]. exists d. auto.
      - intros x [=]. }
    intros log1 (duration & Hduration & ->).
    eapply wp_bind; [apply wp_random |]. intros r2 _.
    eapply wp_bind.
    { apply wp_optional with (P := user_field);
        [intros _; apply wp_user_id | apply user_field_None]. }
    intros log2 (user & Huser & ->).
    apply wp_ret. apply body_warn; assumption.
  - (* ERROR *)
    eapply wp_bind; [apply wp_choice; discriminate |].
    intros [message error_type] Hm.
    eapply wp_bind; [apply wp_subscript; reflexivity |]. intros codes <-.
    eapply wp_bind; [apply wp_choice; discriminate |]. intros code Hc.
    eapply wp_bind; [apply wp_randint_range; lia |]. intros duration Hd.
    apply wp_ret. apply body_error; assumption.
Qed.

End Synthesizer.

(** From the logic back to a run of the synthesizer. *)
Lemma generate_log_event_returns (w : World) :
  exists log, generates w log /\ GenEvent (rng w) log /\
              trace (snd (generate_log_event w)) = trace w /\
              sent (snd (generate_log_event w)) = sent w /\
              broker (snd (generate_log_event w)) = broker w.
Proof.
  destruct (@generate_log_event_spec (rng w) (broker w) (sent w) (trace w) w)
    as (log & w' & E & (_ & Hb & Hn & Ht) & G).
  { repeat split. }
  exists log. unfold generates. rewrite E. auto.
Qed.

Lemma generates_GenEvent (w : World) (log : LogEvent) :
  generates w log -> GenEvent (rng w) log.
Proof.
  intros H. destruct (generate_log_event_returns w) as (log' & H' & G & _).
  unfold generates in *. congruence.
Qed.

(** ** Two runs on the same draws *)

Lemma rel_ret (Pre : World -> World -> Prop) {A} (R : A -> A -> Prop) (a1 a2 : A) :
  R a1 a2 -> rel Pre (ret a1) (ret a2) R Pre.
Proof. intros H w1 w2 HP. simpl. auto. Qed.

Lemma rel_raise (Pre Post : World -> World -> Prop) {A} (R : A -> A -> Prop) (e : exn) :
  rel Pre (raise e) (raise e) R Post.
Proof. intros w1 w2 HP. reflexivity. Qed.

Lemma rel_bind (Pre Mid Post : World -> World -> Prop) {A B}
    (m1 m2 : M A) (k1 k2 : A -> M B) (P : A -> A -> Prop) (R : B -> B -> Prop) :
  rel Pre m1 m2 P Mid ->
  (forall a1 a2, P a1 a2 -> rel Mid (k1 a1) (k2 a2) R Post) ->
  rel Pre (bind m1 k1) (bind m2 k2) R Post.
Proof.
  intros Hm Hk w1 w2 HP. specialize (Hm w1 w2 HP). unfold bind.
  destruct (m1 w1) as [[a1 | e1] w1'], (m2 w2) as [[a2 | e2] w2']; try easy.
  destruct Hm as [Pa HM]. apply (Hk a1 a2 Pa w1' w2' HM).
Qed.

Lemma rel_post (Pre Post Post' : World -> World -> Prop) {A}
    (m1 m2 : M A) (R : A -> A -> Prop) :
  rel Pre m1 m2 R Post ->
  (forall w1 w2, Post w1 w2 -> Post' w1 w2) ->
  rel Pre m1 m2 R Post'.
Proof.
  intros Hm HPost w1 w2 HP. specialize (Hm w1 w2 HP).
  destruct (m1 w1) as [[a1 | e1] w1'], (m2 w2) as [[a2 | e2] w2']; try easy.
  destruct Hm. auto.
Qed.

Lemma sync_unrelated (J : datetime -> datetime -> Prop) (w1 w2 : World) :
  sync J w1 w2 -> sync unrelated w1 w2.
Proof. intros [H _]. split; [assumption | exact I]. Qed.

Lemma rng_only_ret {A} (a : A) : rng_only (ret a).
Proof. intros J. apply rel_ret. reflexivity. Qed.

Lemma rng_only_raise {A} (e : exn) : rng_only (@raise A e).
Proof. intros J. apply rel_raise. Qed.

Lemma rng_only_bind {A B} (m : M A) (k : A -> M B) :
  rng_only m -> (forall a, rng_only (k a)) -> rng_only (bind m k).
Proof.
  intros Hm Hk J. eapply rel_bind; [apply Hm |].
  intros a ? <-. apply Hk.
Qed.

Lemma rng_only_draw : rng_only random.draw.
Proof.
  intros J w1 w2 [Hd Hc]. simpl. repeat split.
  - pose proof (Hd 0) as H. rewrite !Nat.add_0_r in H. exact H.
  - intros i. simpl. pose proof (Hd (S i)) as H.
    rewrite !Nat.add_succ_r in H. exact H.
  - exact Hc.
Qed.

Lemma rng_only_subscript {V} (d : dict V) (k : string) : rng_only (subscript d k).
Proof.
  unfold subscript. destruct (getitem d k);
    [apply rng_only_ret | apply rng_only_raise].
Qed.

Lemma rng_only_index {A} (l : list A) (i : nat) : rng_only (index l i).
Proof.
  unfold index. destruct (nth_error l i);
    [apply rng_only_ret | apply rng_only_raise].
Qed.

Lemma rng_only_random : rng_only random.random.
Proof.
  apply rng_only_bind; [apply rng_only_draw | intros k; apply rng_only_ret].
Qed.

Lemma rng_only_randbelow (bound : N) : rng_only (random._randbelow bound).
Proof.
  apply rng_only_bind; [apply rng_only_draw | intros k; apply rng_only_ret].
Qed.

Lemma rng_only_randint (lo hi : Z) : rng_only (random.randint lo hi).
Proof.
  unfold random.randint. cbv zeta.
  destruct (0 <? hi + 1 - lo)%Z; [| apply rng_only_raise].
  apply rng_only_bind; [apply rng_only_randbelow | intros k; apply rng_only_ret].
Qed.

Lemma rng_only_choice {A} (seq : list A) : rng_only (random.choice seq).
Proof.
  unfold random.choice. destruct (length seq =? 0)%nat; [apply rng_only_raise |].
  apply rng_only_bind; [apply rng_only_randbelow | intros k; apply rng_only_index].
Qed.

Lemma rng_only_randbytes (len : nat) : rng_only (random.randbytes len).
Proof.
  apply rng_only_bind; [apply rng_only_draw | intros k; apply rng_only_ret].
Qed.

Lemma rng_only_uniform (lo hi : Q) : rng_only (random.uniform lo hi).
Proof.
  apply rng_only_bind; [apply rng_only_random | intros r; apply rng_only_ret].
Qed.

Lemma rng_only_choices {A} (population : list A) (weights : list Q) :
  rng_only (random.choices population weights).
Proof.
  unfold random.choices. destruct (negb _); [apply rng_only_raise |].
  apply rng_only_bind; [apply rng_only_index | intros c].
  destruct (Qle_bool _ _); [apply rng_only_raise |].
  destruct (negb _); [apply rng_only_raise |].
  apply rng_only_bind; [apply rng_only_random | intros r].
  apply rng_only_bind; [apply rng_only_index | intros x; apply rng_only_ret].
Qed.

Lemma rng_only_weighted_choice (choices : dict Q) : rng_only (weighted_choice choices).
Proof.
  apply rng_only_bind; [apply rng_only_choices | intros p; apply rng_only_index].
Qed.

Lemma rel_now (J : datetime -> datetime -> Prop) :
  rel (sync J) datetime_.now datetime_.now J (sync unrelated).
Proof.
  intros w1 w2 [Hd Hc]. simpl. repeat split; assumption.
Qed.

(** A computation on the random source alone, after the clock was read. *)
Lemma rel_rng_only {A} (m : M A) :
  rng_only m -> rel (sync unrelated) m m eq (sync unrelated).
Proof. intros H. apply H. Qed.

Lemma twins_setitem (J : datetime -> datetime -> Prop) (l1 l2 : LogEvent)
    (key : string) (v : value) :
  twins J l1 l2 -> ("timestamp" =? key) = false ->
  twins J (setitem l1 key v) (setitem l2 key v).
Proof.
  intros (t1 & t2 & rest & HJ & -> & ->) Hk.
  exists t1, t2, (setitem rest key v).
  cbn [setitem]. rewrite Hk. auto.
Qed.

Tactic Notation "sync_step" uconstr(lemma) "as" ident(x) :=
  eapply rel_bind; [apply lemma | intros x ? <-].

(** [if c: log[key] = ...] in two runs whose records are twins. *)
Lemma rel_optional (J : datetime -> datetime -> Prop) (c : bool)
    (body1 body2 : M LogEvent) (l1 l2 : LogEvent) :
  twins J l1 l2 ->
  rel (sync unrelated) body1 body2 (twins J) (sync unrelated) ->
  rel (sync unrelated) (if c then body1 else ret l1) (if c then body2 else ret l2)
      (twins J) (sync unrelated).
Proof.
  intros Ht Hb. destruct c; [exact Hb | apply rel_ret; exact Ht].
Qed.

(** Two runs of the synthesizer on the same draws return twins. *)
Lemma generate_log_event_twins (J : datetime -> datetime -> Prop) :
  rel (sync J) generate_log_event generate_log_event (twins J) (sync unrelated).
Proof.
  unfold generate_log_event.
  sync_step rng_only_weighted_choice as level.
  sync_step rng_only_choice as service.
  sync_step rng_only_subscript as hosts.
  sync_step rng_only_choice as host.
  eapply rel_bind; [apply rel_now |]. intros t1 t2 HJ.
  sync_step (rel_rng_only (rng_only_randbytes 4)) as token.
  cbv zeta.
  assert (T0 : twins J
            (base_log (timestamp_of t1) level service host ("req-" ++ hex token))
            (base_log (timestamp_of t2) level service host ("req-" ++ hex token))).
  { exists t1, t2. eexists. repeat split. exact HJ. }
  unfold base_log, timestamp_of in T0.
  match type of T0 with twins _ ?x1 ?x2 =>
    generalize dependent x1; intros l1; generalize dependent x2; intros l2
  end.
  intros T0.
  destruct (level =? "INFO"); [| destruct (level =? "WARN")].
  - (* INFO *)
    sync_step (rel_rng_only (rng_only_choice INFO_MESSAGES)) as message.
    sync_step (rel_rng_only (rng_only_randint 10 500)) as duration.
    sync_step (rel_rng_only (rng_only_subscript STATUS_CODES "INFO")) as codes.
    sync_step (rel_rng_only (rng_only_choice codes)) as code.
    sync_step (rel_rng_only rng_only_random) as r1.
    eapply rel_bind.
    { apply rel_optional; [repeat (apply twins_setitem; [| reflexivity]); exact T0 |].
      sync_step (rel_rng_only (rng_only_randint 10000 99999)) as u.
      apply rel_ret. repeat (apply twins_setitem; [| reflexivity]). exact T0. }
    intros l1a l2a T1.
    sync_step (rel_rng_only rng_only_random) as r2.
    eapply rel_bind.
    { apply rel_optional; [exact T1 |].
      sync_step (rel_rng_only (rng_only_randint 1 255)) as o3.
      sync_step (rel_rng_only (rng_only_randint 1 255)) as o4.
      apply rel_ret. apply twins_setitem; [exact T1 | reflexivity]. }
    intros l1b l2b T2.
    sync_step (rel_rng_only rng_only_random) as r3.
    eapply rel_bind.
    { apply rel_optional; [exact T2 |].
      sync_step (rel_rng_only
                   (rng_only_uniform (Float.binary64 9.99) (Float.binary64 999.99)))
        as x.
      apply rel_ret. apply twins_setitem; [exact T2 | reflexivity]. }
    intros l1c l2c T3.
    apply rel_ret. exact T3.
  - (* WARN *)
    sync_step (rel_rng_only (rng_only_choice WARN_MESSAGES)) as message.
    sync_step (rel_rng_only (rng_only_subscript STATUS_CODES "WARN")) as codes.
    sync_step (rel_rng_only (rng_only_choice codes)) as code.
    sync_step (rel_rng_only rng_only_random) as r1.
    eapply rel_bind.
    { apply rel_optional; [repeat (apply twins_setitem; [| reflexivity]); exact T0 |].
      sync_step (rel_rng_only (rng_only_randint 500 2000)) as duration.
      apply rel_ret. repeat (apply twins_setitem; [| reflexivity]). exact T0. }
    intros l1a l2a T1.
    sync_step (rel_rng_only rng_only_random) as r2.
    eapply rel_bind.
    { apply rel_optional; [exact T1 |].
      sync_step (rel_rng_only (rng_only_randint 10000 99999)) as u.
      apply rel_ret. apply twins_setitem; [exact T1 | reflexivity]. }
    intros l1b l2b T2.
    apply rel_ret. exact T2.
  - (* ERROR *)
    sync_step (rel_rng_only (rng_only_choice ERROR_MESSAGES)) as pair.
    destruct pair as [message error_type].
    sync_step (rel_rng_only (rng_only_subscript STATUS_CODES "ERROR")) as codes.
    sync_step (rel_rng_only (rng_only_choice codes)) as code.
    sync_step (rel_rng_only (rng_only_randint 1000 10000)) as duration.
    apply rel_ret. repeat (apply twins_setitem; [| reflexivity]). exact T0.
Qed.


(** ** Facts about the model *)

Ltac shapes G :=
  let HB := fresh "HB" in
  let E1 := fresh "E" in
  let E2 := fresh "E" in
  destruct G as [ts level service hosts host k log Hservice Hhosts Hhost HB];
  inversion HB as [message duration code user ip amount Hm Hd Hc Hu Hip Ha E1 E2
                  | message code duration user Hm Hc Hd Hu E1 E2
                  | message error_type code duration Hm Hc Hd E1 E2];
  clear HB; subst level log.

Lemma lowest_generates : generates (world_of lowest noon) lowest_event.
Proof. vm_compute. reflexivity. Qed.

Lemma highest_generates : generates (world_of highest noon) highest_event.
Proof. vm_compute. reflexivity. Qed.

Lemma payment_generates : generates (world_of payment noon) payment_event.
Proof. vm_compute. reflexivity. Qed.

Lemma lowest_later_generates :
  generates (world_of lowest a_second_later) lowest_event_later.
Proof. vm_compute. reflexivity. Qed.

Lemma hex_digit_lower (n : N) : (n < 16)%N -> is_lower_hex (hex_digit n) = true.
Proof.
  intros H.
  assert (C : exists m, (m < 16)%nat /\ n = N.of_nat m).
  { exists (N.to_nat n). split; lia. }
  destruct C as (m & Hm & ->).
  do 16 (destruct m as [| m]; [reflexivity |]). lia.
Qed.

Lemma hex_lower (bs : bytes) :
  Forall (fun x => (x < 256)%N) bs ->
  forallb is_lower_hex (list_ascii_of_string (hex bs)) = true.
Proof.
  induction 1 as [| x bs Hx _ IH]; [reflexivity |].
  cbn [hex list_ascii_of_string forallb].
  rewrite IH, !hex_digit_lower; [reflexivity | |].
  - apply N.mod_lt. discriminate.
  - apply N.Div0.div_lt_upper_bound. exact Hx.
Qed.

Lemma hex_length (bs : bytes) : String.length (hex bs) = 2 * length bs.
Proof. induction bs as [| x bs IH]; simpl; [| rewrite IH]; lia. Qed.

Lemma to_bytes_little_length (n : nat) (v : N) : length (to_bytes_little n v) = n.
Proof. revert v. induction n; intros v; simpl; [| rewrite IHn]; reflexivity. Qed.

Lemma to_bytes_little_range (n : nat) (v : N) :
  Forall (fun x => (x < 256)%N) (to_bytes_little n v).
Proof.
  revert v. induction n; intros v; simpl; constructor; [| apply IHn].
  apply N.mod_lt. discriminate.
Qed.

Lemma octet_range (k : N) : (1 <= octet k <= 255)%Z.
Proof. unfold octet. pose proof (Z.mod_pos_bound (Z.of_N k) 255). lia. Qed.

Lemma sends_of_app (t1 t2 : list effect) :
  sends_of (t1 ++ t2) = (sends_of t1 ++ sends_of t2)%list.
Proof.
  induction t1 as [| e t1 IH]; [reflexivity |].
  destruct e; simpl; rewrite IH; reflexivity.
Qed.

Lemma event_service (g : nat -> N) (log : LogEvent) :
  GenEvent g log ->
  exists service,
    getitem log "service" = Some (VStr service) /\
    key_serializer (VStr service) = Ok (Some service).
Proof.
  intros G. shapes G; exists service.
  all: split; [try destruct user; try destruct ip; try destruct amount;
               try destruct duration; reflexivity |].
  all: repeat (destruct Hservice as [<- | Hservice]; [reflexivity |]);
       destruct Hservice.
Qed.

Lemma bind_ok {A B} (m : M A) (k : A -> M B) (w w' : World) (a : A) :
  m w = (Ok a, w') -> bind m k w = k a w'.
Proof. intros H. unfold bind. rewrite H. reflexivity. Qed.

(** * The synthesizer and the loop, call by call *)

Lemma message_levels (w : World) (log : LogEvent) :
  generates w log ->
  getitem log "level" = Some (VStr "INFO") \/
  getitem log "level" = Some (VStr "WARN") \/
  getitem log "level" = Some (VStr "ERROR").
Proof.
  intros Hgen. apply generates_GenEvent in Hgen.
  shapes Hgen.
  - left. destruct user, ip, amount; reflexivity.
  - right; left. destruct duration, user; reflexivity.
  - right; right. reflexivity.
Qed.

(** ** Calls of the random module and readings of the clock *)

Lemma advanced_0 (w : World) : advanced w 0 0 = w.
Proof. destruct w. unfold advanced. cbn. f_equal; lia. Qed.

Lemma advanced_add (w : World) (d1 t1 d2 t2 : nat) :
  advanced (advanced w d1 t1) d2 t2 = advanced w (d1 + d2) (t1 + t2).
Proof. unfold advanced. cbn. f_equal; lia. Qed.

Lemma uses_ret {A} (a : A) (Q : A -> nat -> nat -> Prop) :
  Q a 0 0 -> uses (ret a) Q.
Proof.
  intros H w x w' [= <- <-]. exists 0, 0. rewrite advanced_0. auto.
Qed.

Lemma uses_raise {A} (e : exn) (Q : A -> nat -> nat -> Prop) : uses (raise e) Q.
Proof. intros w x w' [=]. Qed.

Lemma uses_bind {A B} (m : M A) (k : A -> M B)
    (P : A -> nat -> nat -> Prop) (Q : B -> nat -> nat -> Prop) :
  uses m P ->
  (forall a d1 t1, P a d1 t1 ->
     uses (k a) (fun b d2 t2 => Q b (d1 + d2) (t1 + t2))) ->
  uses (bind m k) Q.
Proof.
  intros Hm Hk w b w'' E. unfold bind in E.
  destruct (m w) as [[a | e] w'] eqn:Em; [| discriminate E].
  destruct (Hm w a w' Em) as (d1 & t1 & -> & Pa).
  destruct (Hk a d1 t1 Pa _ b w'' E) as (d2 & t2 & -> & Qb).
  exists (d1 + d2), (t1 + t2). rewrite advanced_add. auto.
Qed.

Lemma uses_weaken {A} (m : M A) (P Q : A -> nat -> nat -> Prop) :
  uses m P -> (forall a d t, P a d t -> Q a d t) -> uses m Q.
Proof.
  intros Hm H w a w' E. destruct (Hm w a w' E) as (d & t & D & Pa).
  exists d, t. auto.
Qed.

Lemma uses_draw : uses random.draw one_draw.
Proof.
  intros w a w' [= <- <-]. exists 1, 0.
  split; [unfold advanced; f_equal; lia | split; reflexivity].
Qed.

Lemma uses_now : uses datetime_.now (fun _ d t => d = 0 /\ t = 1).
Proof.
  intros w a w' [= <- <-]. exists 0, 1.
  split; [unfold advanced; f_equal; lia | split; reflexivity].
Qed.

Lemma uses_subscript {V} (d : dict V) (k : string) : uses (subscript d k) no_draw.
Proof.
  unfold subscript. destruct (getitem d k);
    [apply uses_ret; split; reflexivity | apply uses_raise].
Qed.

Lemma uses_index {A} (l : list A) (i : nat) : uses (index l i) no_draw.
Proof.
  unfold index. destruct (nth_error l i);
    [apply uses_ret; split; reflexivity | apply uses_raise].
Qed.

Ltac one_draw_then tac :=
  eapply uses_bind; [apply uses_draw |];
  intros ? ? ? [-> ->]; tac.

Lemma uses_random : uses random.random one_draw.
Proof.
  unfold random.random.
  one_draw_then ltac:(apply uses_ret; split; reflexivity).
Qed.

Lemma uses_randbelow (bound : N) : uses (random._randbelow bound) one_draw.
Proof.
  unfold random._randbelow.
  one_draw_then ltac:(apply uses_ret; split; reflexivity).
Qed.

Lemma uses_randint (lo hi : Z) : uses (random.randint lo hi) one_draw.
Proof.
  unfold random.randint. cbv zeta.
  destruct (0 <? hi + 1 - lo)%Z; [| apply uses_raise].
  eapply uses_bind; [apply uses_randbelow |]. intros ? ? ? [-> ->].
  apply uses_ret. split; reflexivity.
Qed.

Lemma uses_choice {A} (seq : list A) : uses (random.choice seq) one_draw.
Proof.
  unfold random.choice. destruct (length seq =? 0)%nat; [apply uses_raise |].
  eapply uses_bind; [apply uses_randbelow |]. intros ? ? ? [-> ->].
  eapply uses_weaken; [apply uses_index |].
  intros ? ? ? [-> ->]. split; reflexivity.
Qed.

Lemma uses_randbytes (len : nat) : uses (random.randbytes len) one_draw.
Proof.
  unfold random.randbytes.
  one_draw_then ltac:(apply uses_ret; split; reflexivity).
Qed.

Lemma uses_uniform (lo hi : Q) : uses (random.uniform lo hi) one_draw.
Proof.
  unfold random.uniform. eapply uses_bind; [apply uses_random |].
  intros ? ? ? [-> ->]. apply uses_ret. split; reflexivity.
Qed.

Lemma uses_choices {A} (population : list A) (weights : list Q) :
  uses (random.choices population weights) one_draw.
Proof.
  unfold random.choices. destruct (negb _); [apply uses_raise |].
  eapply uses_bind; [apply uses_index |]. intros ? ? ? [-> ->].
  destruct (Qle_bool _ _); [apply uses_raise |].
  destruct (negb _); [apply uses_raise |].
  eapply uses_bind; [apply uses_random |]. intros ? ? ? [-> ->].
  eapply uses_bind; [apply uses_index |]. intros ? ? ? [-> ->].
  apply uses_ret. split; reflexivity.
Qed.

Lemma uses_weighted_choice (choices : dict Q) :
  uses (weighted_choice choices) one_draw.
Proof.
  unfold weighted_choice. eapply uses_bind; [apply uses_choices |].
  intros ? ? ? [-> ->]. eapply uses_weaken; [apply uses_index |].
  intros ? ? ? [-> ->]. split; reflexivity.
Qed.

(** [if c: log[key] = ...], with a body of [n] calls that keeps the level. *)
Lemma uses_optional (c : bool) (body : M LogEvent) (log : LogEvent)
    (level : string) (n : nat) :
  getitem log "level" = Some (VStr level) ->
  uses body (fun l d t =>
               getitem l "level" = Some (VStr level) /\ d = n /\ t = 0) ->
  uses (if c then body else ret log)
       (fun l d t => getitem l "level" = Some (VStr level) /\ t = 0 /\
                     (d = 0 \/ d = n /\ c = true)).
Proof.
  intros Hlog Hbody. destruct c.
  - eapply uses_weaken; [exact Hbody |]. intros l d t (Hl & -> & ->). auto.
  - apply uses_ret. auto.
Qed.

Lemma getitem_setitem_other {V} (d : dict V) (k k' : string) (v : V) :
  (k =? k') = false -> getitem (setitem d k v) k' = getitem d k'.
Proof.
  intros Hk. induction d as [| [k0 v0] d IH]; cbn [setitem getitem].
  - rewrite Hk. reflexivity.
  - destruct (k0 =? k) eqn:E0; cbn [getitem].
    + apply String.eqb_eq in E0. subst k0. rewrite Hk. reflexivity.
    + destruct (k0 =? k'); [reflexivity | exact IH].
Qed.

Lemma generate_log_event_uses :
  uses generate_log_event
    (fun log d t =>
       t = 1 /\
       (getitem log "level" = Some (VStr "INFO") -> 10 <= d <= 13) /\
       (getitem log "level" = Some (VStr "WARN") -> 8 <= d <= 10) /\
       (getitem log "level" = Some (VStr "ERROR") -> d = 7)).
Proof.
  unfold generate_log_event.
  eapply uses_bind; [apply uses_weighted_choice |]. intros level ? ? [-> ->].
  eapply uses_bind; [apply uses_choice |]. intros service ? ? [-> ->].
  eapply uses_bind; [apply uses_subscript |]. intros hosts ? ? [-> ->].
  eapply uses_bind; [apply uses_choice |]. intros host ? ? [-> ->].
  eapply uses_bind; [apply uses_now |]. intros now ? ? [-> ->].
  eapply uses_bind; [apply uses_randbytes |]. intros token ? ? [-> ->].
  cbv zeta.
  match goal with
  | |- uses (if _ then ?m1 else _) _ =>
      match m1 with context [setitem ?l "message"] => set (log0 := l) end
  end.
  assert (L0 : getitem log0 "level" = Some (VStr level)) by reflexivity.
  clearbody log0.
  assert (Keep : forall (l : LogEvent) k v, getitem l "level" = Some (VStr level) ->
                   (k =? "level") = false ->
                   getitem (setitem l k v) "level" = Some (VStr level)).
  { intros l k v Hl Hk. rewrite getitem_setitem_other; assumption. }
  destruct (level =? "INFO") eqn:EI; [| destruct (level =? "WARN") eqn:EW].
  - apply String.eqb_eq in EI. subst level.
    eapply uses_bind; [apply uses_choice |]. intros message ? ? [-> ->].
    eapply uses_bind; [apply uses_randint |]. intros duration ? ? [-> ->].
    eapply uses_bind; [apply uses_subscript |]. intros codes ? ? [-> ->].
    eapply uses_bind; [apply uses_choice |]. intros code ? ? [-> ->].
    eapply uses_bind; [apply uses_random |]. intros r1 ? ? [-> ->].
    eapply uses_bind.
    { apply uses_optional with (level := "INFO") (n := 1);
        [repeat (apply Keep; [| reflexivity]); exact L0 |].
      eapply uses_bind; [apply uses_randint |]. intros u ? ? [-> ->].
      apply uses_ret. split; [| split; reflexivity].
      repeat (apply Keep; [| reflexivity]). exact L0. }
    intros l1 d1 ? (L1 & -> & D1).
    eapply uses_bind; [apply uses_random |]. intros r2 ? ? [-> ->].
    eapply uses_bind.
    { apply uses_optional with (level := "INFO") (n := 2); [exact L1 |].
      eapply uses_bind; [apply uses_randint |]. intros a ? ? [-> ->].
      eapply uses_bind; [apply uses_randint |]. intros b ? ? [-> ->].
      apply uses_ret. split; [| split; reflexivity].
      apply Keep; [exact L1 | reflexivity]. }
    intros l2 d2 ? (L2 & -> & D2).
    eapply uses_bind; [apply uses_random |]. intros r3 ? ? [-> ->].
    eapply uses_bind.
    { apply uses_optional with (level := "INFO") (n := 1); [exact L2 |].
      eapply uses_bind; [apply uses_uniform |]. intros x ? ? [-> ->].
      apply uses_ret. split; [| split; reflexivity].
      apply Keep; [exact L2 | reflexivity]. }
    intros l3 d3 ? (L3 & -> & D3).
    apply uses_ret. rewrite L3.
    split; [reflexivity |].
    split; [| split; intros [=]].
    intros _.
    assert (Hex : ~ (d2 = 2 /\ d3 = 1)).
    { intros [E2 E3].
      destruct D2 as [-> | [_ C2]]; [discriminate E2 |].
      destruct D3 as [-> | [_ C3]]; [discriminate E3 |].
      apply andb_prop in C2 as [_ C2]. apply andb_prop in C3 as [_ C3].
      apply String.eqb_eq in C2, C3. subst service. discriminate C3. }
    lia.
  - apply String.eqb_eq in EW. subst level.
    eapply uses_bind; [apply uses_choice |]. intros message ? ? [-> ->].
    eapply uses_bind; [apply uses_subscript |]. intros codes ? ? [-> ->].
    eapply uses_bind; [apply uses_choice |]. intros code ? ? [-> ->].
    eapply uses_bind; [apply uses_random |]. intros r1 ? ? [-> ->].
    eapply uses_bind.
    { apply uses_optional with (level := "WARN") (n := 1);
        [repeat (apply Keep; [| reflexivity]); exact L0 |].
      eapply uses_bind; [apply uses_randint |]. intros u ? ? [-> ->].
      apply uses_ret. split; [| split; reflexivity].
      repeat (apply Keep; [| reflexivity]). exact L0. }
    intros l1 d1 ? (L1 & -> & D1).
    eapply uses_bind; [apply uses_random |]. intros r2 ? ? [-> ->].
    eapply uses_bind.
    { apply uses_optional with (level := "WARN") (n := 1); [exact L1 |].
      eapply uses_bind; [apply uses_randint |]. intros u ? ? [-> ->].
      apply uses_ret. split; [| split; reflexivity].
      apply Keep; [exact L1 | reflexivity]. }
    intros l2 d2 ? (L2 & -> & D2).
    apply uses_ret. rewrite L2.
    split; [reflexivity |].
    split; [intros [=] |]. split; [| intros [=]].
    intros _. lia.
  - eapply uses_bind; [apply uses_choice |]. intros [message error_type] ? ? [-> ->].
    eapply uses_bind; [apply uses_subscript |]. intros codes ? ? [-> ->].
    eapply uses_bind; [apply uses_choice |]. intros code ? ? [-> ->].
    eapply uses_bind; [apply uses_randint |]. intros duration ? ? [-> ->].
    apply uses_ret.
    match goal with
    | |- context [getitem ?l "level"] =>
        assert (L : getitem l "level" = Some (VStr level))
          by (repeat (apply Keep; [| reflexivity]); exact L0);
        rewrite L
    end.
    split; [reflexivity |].
    split; [| split].
    + intros [= ->]. discriminate EI.
    + intros [= ->]. discriminate EW.
    + intros _. reflexivity.
Qed.

(** ** What the synthesizer depends on *)

Lemma inward_ret {A} (a : A) : inward (ret a).
Proof. apply rel_ret. reflexivity. Qed.

Lemma inward_raise {A} (e : exn) : inward (@raise A e).
Proof. apply rel_raise. Qed.

Lemma inward_bind {A B} (m : M A) (k : A -> M B) :
  inward m -> (forall a, inward (k a)) -> inward (bind m k).
Proof.
  intros Hm Hk. eapply rel_bind; [apply Hm |].
  intros a ? <-. apply Hk.
Qed.

Lemma inward_draw : inward random.draw.
Proof.
  intros w1 w2 (Hg & Hd & Hc & Hr). cbn.
  rewrite Hg, Hd. repeat split; assumption.
Qed.

Lemma inward_now : inward datetime_.now.
Proof.
  intros w1 w2 (Hg & Hd & Hc & Hr). cbn.
  rewrite Hc, Hr. repeat split; assumption.
Qed.

Lemma inward_subscript {V} (d : dict V) (k : string) : inward (subscript d k).
Proof.
  unfold subscript. destruct (getitem d k); [apply inward_ret | apply inward_raise].
Qed.

Lemma inward_index {A} (l : list A) (i : nat) : inward (index l i).
Proof.
  unfold index. destruct (nth_error l i); [apply inward_ret | apply inward_raise].
Qed.

Ltac inward_step :=
  lazymatch goal with
  | |- inward (ret _) => apply inward_ret
  | |- inward (raise _) => apply inward_raise
  | |- inward (bind _ _) => apply inward_bind; [| intros ?]
  | |- inward random.draw => apply inward_draw
  | |- inward datetime_.now => apply inward_now
  | |- inward (subscript _ _) => apply inward_subscript
  | |- inward (index _ _) => apply inward_index
  | |- inward random.random => unfold random.random
  | |- inward (random._randbelow _) => unfold random._randbelow
  | |- inward (random.randint _ _) => unfold random.randint
  | |- inward (random.choice _) => unfold random.choice
  | |- inward (random.randbytes _) => unfold random.randbytes
  | |- inward (random.uniform _ _) => unfold random.uniform
  | |- inward (random.choices _ _) => unfold random.choices
  | |- inward (weighted_choice _) => unfold weighted_choice
  | |- inward (if ?c then _ else _) => destruct c
  | |- inward (match ?x with _ => _ end) => destruct x
  | |- _ => progress cbv beta zeta
  end.

(** The record that the synthesizer returns depends on the draws and on the
    readings of the clock only, not on what was sent or printed before. *)
Lemma generate_log_event_inward : inward generate_log_event.
Proof. unfold generate_log_event. repeat inward_step. Qed.

Lemma events_agree (n : nat) :
  forall w1 w2, agree w1 w2 -> events n w1 = events n w2.
Proof.
  induction n as [| n IH]; intros w1 w2 H; [reflexivity |].
  cbn [events]. pose proof (generate_log_event_inward H) as R.
  destruct (generate_log_event w1) as [[l1 | e1] w1'],
           (generate_log_event w2) as [[l2 | e2] w2']; try easy.
  destruct R as [<- R]. rewrite (IH _ _ R). reflexivity.
Qed.

(** ** The rounds of the producer loop *)

Lemma produce_logs_loop (topic : string) (count : Z) (delay : Q) :
  produce_logs topic count delay
  = (print (first_line topic count) ;;
     for_range 0 (Z.to_nat count) (produce_one topic count delay) ;;
     emit Flush ;;
     print (last_line count)).
Proof. reflexivity. Qed.

(** One round: the synthesizer returns its record, the record is sent under
    its service, and the answers of the broker and of [time.sleep] decide
    the rest. *)
Lemma produce_one_round (topic : string) (count : Z) (delay : Q) (i : Z) (w : World) :
  exists log service d,
    generate_log_event w = (Ok log, advanced w d 1) /\
    7 <= d <= 13 /\
    getitem log "service" = Some (VStr service) /\
    key_serializer (VStr service) = Ok (Some service) /\
    produce_one topic count delay i w
    = (Ok tt,
       mkWorld (rng w) (drawn w + d) (clock w) (reads w + 1)
               (broker w) (S (sent w)) (nap w)
               (naps w + naps_in count delay (broker w) i (sent w) 1)
               (trace w ++ Send topic (VStr service) log
                        :: reaction count delay i (broker w (sent w))
                             (nap w (naps w)))).
Proof.
  destruct (generate_log_event_returns w) as (log & Hgen & G & _).
  pose proof (message_levels Hgen) as Hlevel.
  unfold generates in Hgen.
  destruct (generate_log_event w) as [r w1] eqn:E. cbn in Hgen. subst r.
  destruct (generate_log_event_uses w E) as (d & t & -> & -> & HI & HW & HE).
  assert (Hd : 7 <= d <= 13).
  { destruct Hlevel as [L | [L | L]];
      [specialize (HI L) | specialize (HW L) | specialize (HE L)]; lia. }
  destruct (event_service G) as (service & Hget & Hkey).
  exists log, service, d.
  split; [reflexivity |]. split; [exact Hd |].
  split; [exact Hget |]. split; [exact Hkey |].
  unfold produce_one. unfold bind at 1. rewrite E.
  unfold bind at 1. unfold subscript. rewrite Hget. unfold ret at 1.
  unfold try_except, bind, send, sleep, print, emit, ret, advanced.
  cbn [rng drawn clock reads broker sent nap naps trace].
  unfold reaction, naps_in, delivered, pauses, due, progress_line, error_line.
  destruct (broker w (sent w)) as [e | e | partition offset];
    cbn [str_of_exn andb];
    [| |
     destruct (((i + 1) mod 10 =? 0)%Z || (i + 1 =? count)%Z);
     destruct (Float.Qltb 0 delay && (i <? count - 1)%Z);
     cbn [rng drawn clock reads broker sent nap naps trace];
     try destruct (nap w (naps w)); cbn [str_of_exn]];
    cbn [rng drawn clock reads broker sent nap naps trace];
    (f_equal; f_equal; first [lia | rewrite <- ?app_assoc; reflexivity]).
Qed.

Lemma produce_rounds (topic : string) (count : Z) (delay : Q) (n : nat) :
  forall (i : Z) (w : World),
  exists rounds d,
    for_range i n (produce_one topic count delay) w
    = (Ok tt,
       mkWorld (rng w) (drawn w + d) (clock w) (reads w + n)
               (broker w) (sent w + n) (nap w)
               (naps w + naps_in count delay (broker w) i (sent w) n)
               (trace w ++ rounds)) /\
    7 * n <= d <= 13 * n /\
    Rounds topic count delay (broker w) (nap w) i (sent w) (naps w) n rounds /\
    length (events n w) = n /\
    Forall2 (fun log call =>
               exists service,
                 getitem log "service" = Some (VStr service) /\
                 key_serializer (VStr service) = Ok (Some service) /\
                 call = (topic, VStr service, log))
            (events n w) (sends_of rounds).
Proof.
  induction n as [| n IH]; intros i w.
  - exists [], 0. cbn [for_range naps_in events]. unfold ret.
    rewrite app_nil_r, !Nat.add_0_r.
    split; [destruct w; reflexivity |].
    split; [lia |]. split; [constructor |]. split; [reflexivity | constructor].
  - destruct (produce_one_round topic count delay i w)
      as (log & service & d1 & E & Hd1 & Hget & Hkey & E1).
    match type of E1 with _ = (_, ?w1') => set (w1 := w1') in * end.
    destruct (IH (i + 1)%Z w1) as (rest & d2 & E2 & Hd2 & Rs & Hlen & Hall).
    assert (Hev : events n w1 = events n (advanced w d1 1)).
    { apply events_agree. repeat split. }
    exists (Send topic (VStr service) log
            :: reaction count delay i (broker w (sent w)) (nap w (naps w))
               ++ rest)%list, (d1 + d2).
    split.
    { cbn [for_range]. unfold bind. rewrite E1, E2. subst w1.
      cbn [rng drawn clock reads broker sent nap naps trace].
      f_equal. f_equal; try lia.
      - cbn [naps_in]. cbn [naps_in] in *. lia.
      - rewrite <- app_assoc. reflexivity. }
    split; [lia |].
    split; [constructor; [exact Hget | exact Rs] |].
    cbn [events]. rewrite E, <- Hev.
    split; [cbn [length]; rewrite Hlen; reflexivity |].
    cbn [sends_of]. rewrite sends_of_app.
    assert (Hr : sends_of (reaction count delay i (broker w (sent w))
                             (nap w (naps w))) = []).
    { unfold reaction.
      destruct (broker w (sent w)), (due count i), (pauses count delay i),
               (nap w (naps w)); reflexivity. }
    rewrite Hr. cbn [app]. constructor; [| exact Hall].
    exists service. auto.
Qed.

(** The whole run of [produce_logs]. *)
Lemma produce_logs_run (topic : string) (count : Z) (delay : Q) (w : World) :
  exists rounds d,
    produce_logs topic count delay w
    = (Ok tt,
       mkWorld (rng w) (drawn w + d) (clock w) (reads w + Z.to_nat count)
               (broker w) (sent w + Z.to_nat count) (nap w)
               (naps w + naps_in count delay (broker w) 0 (sent w) (Z.to_nat count))
               (trace w ++ Print (first_line topic count) :: rounds
                        ++ [Flush; Print (last_line count)])) /\
    7 * Z.to_nat count <= d <= 13 * Z.to_nat count /\
    Rounds topic count delay (broker w) (nap w) 0 (sent w) (naps w)
           (Z.to_nat count) rounds /\
    length (events (Z.to_nat count) w) = Z.to_nat count /\
    Forall2 (fun log call =>
               exists service,
                 getitem log "service" = Some (VStr service) /\
                 key_serializer (VStr service) = Ok (Some service) /\
                 call = (topic, VStr service, log))
            (events (Z.to_nat count) w) (sends_of rounds).
Proof.
  rewrite produce_logs_loop.
  set (w0 := snd (print (first_line topic count) w)).
  destruct (produce_rounds topic count delay (Z.to_nat count) 0%Z w0)
    as (rounds & d & E & Hd & Rs & Hlen & Hall).
  assert (Hev : events (Z.to_nat count) w0 = events (Z.to_nat count) w).
  { apply events_agree. repeat split. }
  rewrite Hev in Hlen, Hall.
  exists rounds, d.
  split.
  { erewrite bind_ok with (w' := w0) by reflexivity.
    erewrite bind_ok by exact E.
    unfold bind, emit, print, emit. subst w0.
    cbn [rng drawn clock reads broker sent nap naps trace snd print emit].
    f_equal. f_equal. rewrite <- !app_assoc. reflexivity. }
  split; [exact Hd |]. split; [exact Rs |]. split; assumption.
Qed.

Lemma sleeps_of_app (t1 t2 : list effect) :
  sleeps_of (t1 ++ t2) = (sleeps_of t1 ++ sleeps_of t2)%list.
Proof.
  induction t1 as [| e t1 IH]; [reflexivity |].
  destruct e; simpl; rewrite IH; reflexivity.
Qed.

Lemma Rounds_sends (topic : string) (count : Z) (delay : Q) (b : nat -> delivery)
      (f : nat -> option string) (i : Z) (s z n : nat) (rounds : list effect) :
  Rounds topic count delay b f i s z n rounds ->
  length (sends_of rounds) = n /\ ~ In Flush rounds.
Proof.
  induction 1 as [| i s z n service log rest Hget _ [IHs IHf]].
  - split; [reflexivity | intros []].
  - assert (R : sends_of (reaction count delay i (b s) (f z)) = [] /\
                ~ In Flush (reaction count delay i (b s) (f z))).
    { unfold reaction.
      destruct (b s), (due count i), (pauses count delay i), (f z);
        simpl; intuition discriminate. }
    destruct R as [Rs Rf].
    cbn [sends_of]. rewrite sends_of_app, Rs. cbn [app length].
    split; [congruence |].
    intros [C | C]; [discriminate C |].
    apply in_app_or in C. tauto.
Qed.




Lemma Rounds_sleeps (topic : string) (count : Z) (delay : Q) (b : nat -> delivery)
      (f : nat -> option string) (i : Z) (s z n : nat) (rounds : list effect) :
  Rounds topic count delay b f i s z n rounds ->
  n = 0 \/ (i + Z.of_nat n = count)%Z ->
  sleeps_of rounds
  = repeat delay (if Float.Qltb 0 delay
                  then length (filter delivered (answers b s (n - 1)))
                  else 0).
Proof.
  induction 1 as [| i s z n service log rest Hget HR IH]; intros Hc.
  - simpl. destruct (Float.Qltb 0 delay); reflexivity.
  - destruct Hc as [Hc | Hc]; [discriminate Hc |].
    cbn [sleeps_of]. rewrite sleeps_of_app, IH by lia.
    replace (S n - 1) with n by lia.
    destruct n as [| m].
    + assert (Hlast : (i <? count - 1)%Z = false) by (apply Z.ltb_ge; lia).
      unfold reaction, pauses. rewrite Hlast, andb_false_r.
      cbn. destruct (b s), (due count i), (Float.Qltb 0 delay); reflexivity.
    + assert (Hmore : (i <? count - 1)%Z = true) by (apply Z.ltb_lt; lia).
      unfold reaction, pauses. rewrite Hmore, andb_true_r.
      replace (S m - 1) with m by lia.
      unfold answers. cbn [seq map filter].
      destruct (b s), (due count i), (Float.Qltb 0 delay), (f z); reflexivity.
Qed.

(** The number of calls of [time.sleep] in a run. *)
Lemma naps_in_run (count : Z) (delay : Q) (b : nat -> delivery) (n : nat) :
  forall (i : Z) (s : nat),
  n = 0 \/ (i + Z.of_nat n = count)%Z ->
  naps_in count delay b i s n
  = if Float.Qltb 0 delay
    then length (filter delivered (answers b s (n - 1)))
    else 0.
Proof.
  induction n as [| n IH]; intros i s Hc.
  - cbn. destruct (Float.Qltb 0 delay); reflexivity.
  - destruct Hc as [Hc | Hc]; [discriminate Hc |].
    cbn [naps_in]. rewrite IH by lia.
    replace (S n - 1) with n by lia. unfold pauses.
    destruct n as [| m].
    + assert (Hlast : (i <? count - 1)%Z = false) by (apply Z.ltb_ge; lia).
      rewrite Hlast, !andb_false_r. cbn.
      destruct (Float.Qltb 0 delay); reflexivity.
    + assert (Hmore : (i <? count - 1)%Z = true) by (apply Z.ltb_lt; lia).
      rewrite Hmore, andb_true_r.
      replace (S m - 1) with m by lia.
      unfold answers. cbn [seq map filter].
      destruct (delivered (b s)), (Float.Qltb 0 delay); reflexivity.
Qed.

(** * The properties of the specification *)

(** C1. Every record that [generate_log_event] returns (and it always
    returns one) has the seven base fields timestamp, level, service, host,
    request_id, message and status_code, none of them null, whichever branch
    of the level was taken. *)
Theorem base_fields_present (w : World) :
  exists log,
    generates w log /\
    Forall (fun key => exists v, getitem log key = Some v /\ v <> VNone) base_fields.
Proof.
  destruct (generate_log_event_returns w) as (log & Hgen & G & _).
  exists log. split; [assumption |].
  shapes G; [destruct user, ip, amount | destruct duration, user |];
    repeat constructor; (eexists; split; [reflexivity | discriminate]).
Qed.

(** C2, as the code has it.  When a generated event has an ip_address,
    its level is INFO, its service is "web-api", and the address has 4
    octets: the fixed 192 and 168, and then two octets that are each an
    integer drawn from [1, 255]. *)
Theorem ip_address_of_web_api (w : World) (log : LogEvent) (x : value) :
  generates w log ->
  getitem log "ip_address" = Some x ->
  getitem log "level" = Some (VStr "INFO") /\
  getitem log "service" = Some (VStr "web-api") /\
  exists c d,
    drawn_octet (rng w) c /\ drawn_octet (rng w) d /\
    (1 <= c <= 255)%Z /\ (1 <= d <= 255)%Z /\
    x = VStr ("192.168." ++ str_of_Z c ++ "." ++ str_of_Z d).
Proof.
  intros Hgen Hx. apply generates_GenEvent in Hgen.
  shapes Hgen.
  - destruct ip as [v |].
    + assert (v = x) by (destruct user, amount; simpl in Hx; congruence). subst v.
      destruct (Hip x eq_refl) as (-> & i & j & ->).
      split; [destruct user, amount; reflexivity |].
      split; [destruct user, amount; reflexivity |].
      exists (octet (rng w i)), (octet (rng w j)).
      repeat split; try apply octet_range; try (eexists; reflexivity).
    + destruct user, amount; discriminate Hx.
  - destruct duration, user; discriminate Hx.
  - discriminate Hx.
Qed.

Lemma ip_address_of_web_api_witness :
  getitem lowest_event "level" = Some (VStr "INFO") /\
  getitem lowest_event "service" = Some (VStr "web-api") /\
  exists c d,
    drawn_octet lowest c /\ drawn_octet lowest d /\
    (1 <= c <= 255)%Z /\ (1 <= d <= 255)%Z /\
    VStr "192.168.1.1" = VStr ("192.168." ++ str_of_Z c ++ "." ++ str_of_Z d).
Proof.
  apply (@ip_address_of_web_api (world_of lowest noon) lowest_event).
  - vm_compute. reflexivity.
  - reflexivity.
Defined.

(** C2, as it is stated, fails: when every draw is the least one, every
    [randint(1, 255)] returns 1, and yet the address is 192.168.1.1; its
    first two octets are not drawn. *)
Lemma ip_address_not_four_draws :
  ~ ip_address_of_four_draws (world_of lowest noon).
Proof.
  intros H.
  destruct (H lowest_event (VStr "192.168.1.1") lowest_generates eq_refl)
    as (_ & _ & o1 & o2 & o3 & o4 & [i1 ->] & [i2 ->] & [i3 ->] & [i4 ->] & E).
  discriminate E.
Qed.

(** Every address 192.168.c.d with [c] and [d] in [1, 255] is the address
    of some generated event. *)
Lemma every_address_is_generated (c d : Z) :
  (1 <= c <= 255)%Z -> (1 <= d <= 255)%Z ->
  exists w log,
    generates w log /\
    getitem log "ip_address"
    = Some (VStr ("192.168." ++ str_of_Z c ++ "." ++ str_of_Z d)).
Proof.
  intros Hc Hd.
  assert (O : forall o, (1 <= o <= 255)%Z -> o = octet (Z.to_N (o - 1))).
  { intros o Ho. unfold octet. rewrite Z2N.id by lia.
    rewrite Z.mod_small by lia. lia. }
  rewrite (O c Hc), (O d Hd).
  generalize (Z.to_N (c - 1)) (Z.to_N (d - 1)). intros a b.
  assert (M : forall k, octet k = (1 + Z.of_N (k mod 255))%Z)
    by (intros k; unfold octet; rewrite N2Z.inj_mod; reflexivity).
  rewrite !M.
  exists (world_of (address a b) noon).
  eexists. split; vm_compute; reflexivity.
Qed.

(** C3, as the code has it.  When the random source returns the same
    sequence of draws in two invocations of [generate_log_event], the two
    records are the same in every field but the timestamp, which is in each
    the reading of the wall clock; the records are identical when the two
    readings are the same as well. *)
Theorem same_draws_same_record_but_timestamp (w1 w2 : World) :
  same_draws w1 w2 ->
  exists l1 l2 rest,
    generates w1 l1 /\ generates w2 l2 /\
    l1 = ("timestamp", VStr (timestamp_of (clock w1 (reads w1)))) :: rest /\
    l2 = ("timestamp", VStr (timestamp_of (clock w2 (reads w2)))) :: rest /\
    (clock w1 (reads w1) = clock w2 (reads w2) -> l1 = l2).
Proof.
  intros Hd.
  pose proof (@generate_log_event_twins
                (fun t1 t2 => t1 = clock w1 (reads w1) /\ t2 = clock w2 (reads w2))
                w1 w2) as H.
  specialize (H ltac:(split; [exact Hd | split; reflexivity])).
  destruct (generate_log_event_returns w1) as (l1 & G1 & _).
  destruct (generate_log_event_returns w2) as (l2 & G2 & _).
  unfold generates in *.
  destruct (generate_log_event w1) as [r1 w1'], (generate_log_event w2) as [r2 w2'].
  simpl in G1, G2. subst r1 r2.
  destruct H as [(t1 & t2 & rest & [-> ->] & -> & ->) _].
  do 2 eexists. exists rest. repeat split. intros ->. reflexivity.
Qed.

Lemma same_draws_same_record_but_timestamp_witness :
  exists l1 l2 rest,
    generates (world_of lowest noon) l1 /\
    generates (world_of lowest a_second_later) l2 /\
    l1 = ("timestamp", VStr (timestamp_of noon)) :: rest /\
    l2 = ("timestamp", VStr (timestamp_of a_second_later)) :: rest /\
    (noon = a_second_later -> l1 = l2).
Proof.
  apply (@same_draws_same_record_but_timestamp
           (world_of lowest noon) (world_of lowest a_second_later)).
  intros i. reflexivity.
Defined.

(** C3, as it is stated, fails: the same draws, read a second apart, give
    two records that differ in their timestamps. *)
Lemma record_not_determined_by_draws :
  ~ record_determined_by_draws (world_of lowest noon) (world_of lowest a_second_later).
Proof.
  intros H.
  specialize (H (fun i => eq_refl) _ _ lowest_generates lowest_later_generates).
  discriminate H.
Qed.

(** C4. Every generated event of level ERROR carries an error field, whose
    value is the error type that the catalog of 8 (message, error type)
    pairs gives to the message of the event, and no other type goes with that
    message; the event has no user_id, no ip_address and no amount. *)
Theorem error_event_fields (w : World) (log : LogEvent) :
  generates w log ->
  getitem log "level" = Some (VStr "ERROR") ->
  length ERROR_MESSAGES = 8 /\
  (exists message error_type,
     In (message, error_type) ERROR_MESSAGES /\
     getitem log "message" = Some (VStr message) /\
     getitem log "error" = Some (VStr error_type) /\
     forall other, In (message, other) ERROR_MESSAGES -> other = error_type) /\
  getitem log "user_id" = None /\
  getitem log "ip_address" = None /\
  getitem log "amount" = None.
Proof.
  intros Hgen Hlevel. apply generates_GenEvent in Hgen.
  split; [reflexivity |].
  shapes Hgen.
  - destruct user, ip, amount; simpl in Hlevel; discriminate Hlevel.
  - destruct duration, user; simpl in Hlevel; discriminate Hlevel.
  - split; [| repeat split].
    exists message, error_type. repeat split; try assumption.
    intros other Ho.
    repeat (destruct Hm as [Hm | Hm];
            [injection Hm as <- <-;
             repeat (destruct Ho as [Ho | Ho];
                     [(injection Ho as <-; reflexivity) || discriminate Ho |]);
             destruct Ho |]).
    destruct Hm.
Qed.

Lemma error_event_fields_witness :
  length ERROR_MESSAGES = 8 /\
  (exists message error_type,
     In (message, error_type) ERROR_MESSAGES /\
     getitem highest_event "message" = Some (VStr message) /\
     getitem highest_event "error" = Some (VStr error_type) /\
     forall other, In (message, other) ERROR_MESSAGES -> other = error_type) /\
  getitem highest_event "user_id" = None /\
  getitem highest_event "ip_address" = None /\
  getitem highest_event "amount" = None.
Proof.
  apply (@error_event_fields (world_of highest noon) highest_event).
  - vm_compute. reflexivity.
  - reflexivity.
Defined.

(** C5. The host of every generated event is an element of the list that
    the catalog [HOSTS] gives to the service of the event, and the service of
    the event is the only one whose list has that host. *)
Theorem host_of_service (w : World) (log : LogEvent) :
  generates w log ->
  exists service host hosts,
    getitem log "service" = Some (VStr service) /\
    getitem log "host" = Some (VStr host) /\
    getitem HOSTS service = Some hosts /\
    In host hosts /\
    map fst (filter (fun entry => existsb (String.eqb host) (snd entry)) HOSTS)
      = [service].
Proof.
  intros Hgen. apply generates_GenEvent in Hgen.
  shapes Hgen; exists service, host, hosts.
  all: split; [try destruct user; try destruct ip; try destruct amount;
               try destruct duration; reflexivity |].
  all: split; [try destruct user; try destruct ip; try destruct amount;
               try destruct duration; reflexivity |].
  all: split; [assumption |]; split; [assumption |].
  all: repeat (destruct Hservice as [<- | Hservice];
               [injection Hhosts as <-;
                repeat (destruct Hhost as [<- | Hhost]; [reflexivity |]);
                destruct Hhost |]);
       destruct Hservice.
Qed.

Lemma host_of_service_witness :
  exists service host hosts,
    getitem lowest_event "service" = Some (VStr service) /\
    getitem lowest_event "host" = Some (VStr host) /\
    getitem HOSTS service = Some hosts /\
    In host hosts /\
    map fst (filter (fun entry => existsb (String.eqb host) (snd entry)) HOSTS)
      = [service].
Proof.
  apply (@host_of_service (world_of lowest noon) lowest_event).
  vm_compute. reflexivity.
Defined.

(** C6. The request_id of every generated event matches the pattern
    [req-[0-9a-f]{8}]: the prefix "req-" and then exactly 8 lowercase
    hexadecimal characters. *)
Theorem request_id_pattern (w : World) (log : LogEvent) :
  generates w log ->
  exists request_id,
    getitem log "request_id" = Some (VStr request_id) /\
    matches_request_id request_id = true.
Proof.
  intros Hgen. apply generates_GenEvent in Hgen.
  shapes Hgen;
    exists ("req-" ++ hex (to_bytes_little 4 (k mod 2 ^ 32))).
  all: split; [try destruct user; try destruct ip; try destruct amount;
               try destruct duration; reflexivity |].
  all: cbn [matches_request_id append].
  all: rewrite hex_length, to_bytes_little_length, hex_lower
         by apply to_bytes_little_range; reflexivity.
Qed.

Lemma request_id_pattern_witness :
  exists request_id,
    getitem highest_event "request_id" = Some (VStr request_id) /\
    matches_request_id request_id = true.
Proof.
  apply (@request_id_pattern (world_of highest noon) highest_event).
  vm_compute. reflexivity.
Defined.

(** C7. The status code and the duration of every generated event follow
    the catalog and the range of its level: at INFO the code is one of 200,
    201, 204 and the duration is in [10, 500]; at WARN the code is one of
    200, 402 and the duration, when there is one, is in [500, 2000]; at ERROR
    the code is one of 500, 503, 504, 409 and the duration is in
    [1000, 10000]. *)
Theorem status_and_duration_by_level (w : World) (log : LogEvent) :
  generates w log ->
  exists level code,
    getitem log "level" = Some (VStr level) /\
    getitem log "status_code" = Some (VInt code) /\
    ((level = "INFO" /\ In code [200; 201; 204]%Z /\
      exists d, getitem log "duration_ms" = Some (VInt d) /\ (10 <= d <= 500)%Z) \/
     (level = "WARN" /\ In code [200; 402]%Z /\
      (getitem log "duration_ms" = None \/
       exists d, getitem log "duration_ms" = Some (VInt d) /\ (500 <= d <= 2000)%Z)) \/
     (level = "ERROR" /\ In code [500; 503; 504; 409]%Z /\
      exists d, getitem log "duration_ms" = Some (VInt d) /\ (1000 <= d <= 10000)%Z)).
Proof.
  intros Hgen. apply generates_GenEvent in Hgen.
  shapes Hgen.
  - exists "INFO", code.
    split; [destruct user, ip, amount; reflexivity |].
    split; [destruct user, ip, amount; reflexivity |].
    left. repeat split; try assumption.
    exists duration. split; [destruct user, ip, amount; reflexivity | assumption].
  - exists "WARN", code.
    split; [destruct duration, user; reflexivity |].
    split; [destruct duration, user; reflexivity |].
    right; left. repeat split; try assumption.
    destruct duration as [v |].
    + right. destruct (Hd v eq_refl) as (d & Hrange & ->).
      exists d. split; [destruct user; reflexivity | assumption].
    + left. destruct user; reflexivity.
  - exists "ERROR", code.
    split; [reflexivity |]. split; [reflexivity |].
    right; right. repeat split; try assumption.
    exists duration. split; [reflexivity | assumption].
Qed.

Lemma status_and_duration_by_level_witness :
  exists level code,
    getitem lowest_event "level" = Some (VStr level) /\
    getitem lowest_event "status_code" = Some (VInt code) /\
    ((level = "INFO" /\ In code [200; 201; 204]%Z /\
      exists d, getitem lowest_event "duration_ms" = Some (VInt d) /\
                (10 <= d <= 500)%Z) \/
     (level = "WARN" /\ In code [200; 402]%Z /\
      (getitem lowest_event "duration_ms" = None \/
       exists d, getitem lowest_event "duration_ms" = Some (VInt d) /\
                 (500 <= d <= 2000)%Z)) \/
     (level = "ERROR" /\ In code [500; 503; 504; 409]%Z /\
      exists d, getitem lowest_event "duration_ms" = Some (VInt d) /\
                (1000 <= d <= 10000)%Z)).
Proof.
  apply (@status_and_duration_by_level (world_of lowest noon) lowest_event).
  vm_compute. reflexivity.
Defined.

(** C8. The amount of a generated event, when there is one, is a number
    of the interval [9.99, 999.99] rounded to 2 decimal places: it is the
    float nearest to [cents / 100] for a whole number of cents from 999 to
    99999, it lies between the floats 9.99 and 999.99, and [round(amount, 2)]
    gives it back. *)
Theorem amount_in_cents (w : World) (log : LogEvent) (x : value) :
  generates w log ->
  getitem log "amount" = Some x ->
  exists cents amount,
    x = VFloat amount /\
    (999 <= cents <= 99999)%Z /\
    amount = Float.binary64 (inject_Z cents / 100) /\
    (Float.binary64 9.99 <= amount)%Q /\
    (amount <= Float.binary64 999.99)%Q /\
    Float.round amount 2 = amount.
Proof.
  intros Hgen Hx. apply generates_GenEvent in Hgen.
  shapes Hgen.
  - destruct amount as [v |].
    + assert (v = x) by (destruct user, ip; simpl in Hx; congruence). subst v.
      destruct (Ha x eq_refl) as (_ & r & ->).
      pose proof (FloatFacts.uniform_amount_cents r) as Hcents.
      eexists _, _. split; [reflexivity |].
      split; [exact Hcents |]. split; [reflexivity |].
      destruct (FloatFacts.cents_between Hcents).
      split; [assumption |]. split; [assumption |].
      apply (FloatFacts.cents_fixed Hcents).
    + destruct user, ip; discriminate Hx.
  - destruct duration, user; discriminate Hx.
  - discriminate Hx.
Qed.

Lemma amount_in_cents_witness :
  exists cents amount,
    VFloat (5623870034678907 # 562949953421312) = VFloat amount /\
    (999 <= cents <= 99999)%Z /\
    amount = Float.binary64 (inject_Z cents / 100) /\
    (Float.binary64 9.99 <= amount)%Q /\
    (amount <= Float.binary64 999.99)%Q /\
    Float.round amount 2 = amount.
Proof.
  apply (@amount_in_cents (world_of payment noon) payment_event).
  - vm_compute. reflexivity.
  - reflexivity.
Defined.

(** The two ends of the interval are amounts of generated events. *)
Example amount_ends :
  getitem (event_of (world_of payment noon)) "amount"
  = Some (VFloat (Float.binary64 9.99)) /\
  getitem (event_of (world_of dearest_payment noon)) "amount"
  = Some (VFloat (Float.binary64 999.99)).
Proof. split; vm_compute; reflexivity. Qed.

(** C9. The producer loop always runs to its end, and calls
    [producer.send] once for each of its [count] events, in the order in
    which the calls of [generate_log_event] return them: with the topic of
    the loop, with the record just generated as the value and with the
    service field of this record as the key.  On the wire, the serializers
    that [create_producer] configures make the bytes of the service of the
    key, and the serialized record, [json.dumps] of it, of the value. *)
Theorem produce_logs_sends (json_dumps : LogEvent -> string)
    (topic : string) (count : Z) (delay : Q) (w : World) :
  exists w' new,
    produce_logs topic count delay w = (Ok tt, w') /\
    trace w' = (trace w ++ new)%list /\
    length (sends_of new) = Z.to_nat count /\
    Forall2 (sent_event json_dumps topic)
            (events (Z.to_nat count) w) (sends_of new).
Proof.
  destruct (produce_logs_run topic count delay w)
    as (rounds & d & E & _ & _ & Hlen & Hall).
  eexists _, _. split; [exact E |].
  cbn [trace]. split; [reflexivity |].
  cbn [sends_of]. rewrite sends_of_app. cbn [sends_of]. rewrite app_nil_r.
  split.
  - pose proof (Forall2_length Hall) as L.
    exact (eq_trans (eq_sym L) Hlen).
  - eapply Forall2_impl; [| exact Hall].
    intros log call (service & Hget & Hkey & ->).
    exists service. split; [exact Hget |]. split; [reflexivity |].
    unfold serialized, value_serializer. rewrite Hkey. reflexivity.
Qed.

(** C10. For every non-empty mapping of outcomes to weights whose total,
    as [random.choices] computes it, is positive and finite,
    [weighted_choice] returns one of the keys of the mapping: none of the
    exceptions of the underlying [random.choices] is raised.  The total is
    the last of the running float sums of the weights. *)
Theorem weighted_choice_returns_key (choices : dict Q) (w : World) :
  0 < length choices ->
  (0 < total_weight choices)%Q ->
  Float.isfinite (total_weight choices) = true ->
  exists item, fst (weighted_choice choices w) = Ok item /\ In item (keys choices).
Proof.
  intros Hlen Htotal Hfinite.
  assert (Hne : choices <> []) by (destruct choices; [simpl in Hlen; lia | discriminate]).
  destruct (@wp_weighted_choice (rng w) (broker w) (sent w) (trace w)
              choices Hne Htotal Hfinite w) as (item & w' & E & _ & Hin).
  { repeat split. }
  exists item. rewrite E. auto.
Qed.

Lemma weighted_choice_returns_key_witness :
  exists item,
    fst (weighted_choice LOG_LEVELS (world_of highest noon)) = Ok item /\
    In item (keys LOG_LEVELS).
Proof.
  apply (@weighted_choice_returns_key LOG_LEVELS (world_of highest noon)).
  - simpl. lia.
  - vm_compute. reflexivity.
  - vm_compute. reflexivity.
Defined.

(** C10, as it is stated, fails: the two weights of [heaviest] are finite
    and positive, and so is their sum, but their float sum overflows, and
    [random.choices] raises [ValueError] for a total that is not finite. *)
Lemma heaviest_weights_give_no_key :
  ~ returns_key_for_positive_total heaviest (world_of lowest noon).
Proof.
  intros H. destruct H as (item & E & _).
  - simpl. lia.
  - vm_compute. reflexivity.
  - vm_compute in E. discriminate E.
Qed.

Example weighted_choice_heaviest (w : World) :
  weighted_choice heaviest w
  = (Raise (ValueError "Total of weights must be finite"), w).
Proof. vm_compute. reflexivity. Qed.

(** Nor is the sum of the weights the total that counts: the weights of
    [cancelling] add up to [2^-60], and their float sums to 0. *)
Example weighted_choice_cancelling (w : World) :
  (0 < sum_of_weights cancelling)%Q /\
  weighted_choice cancelling w
  = (Raise (ValueError "Total of weights must be greater than zero"), w).
Proof. split; vm_compute; reflexivity. Qed.

(** Without the precondition the exceptions are there. *)
Example weighted_choice_empty (w : World) :
  fst (weighted_choice [] w) = Raise (IndexError "list index out of range").
Proof. reflexivity. Qed.

Example weighted_choice_zero_total (w : World) :
  fst (weighted_choice [("INFO", 0%Q); ("WARN", 0%Q)] w)
  = Raise (ValueError "Total of weights must be greater than zero").
Proof. vm_compute. reflexivity. Qed.

(** * Further properties of the synthesizer *)

(** X1. A generated event has an error field exactly when its level is
    ERROR: INFO and WARN events never carry one. *)
Theorem error_field_iff_error_level (w : World) (log : LogEvent) :
  generates w log ->
  (getitem log "error" <> None <-> getitem log "level" = Some (VStr "ERROR")).
Proof.
  intros Hgen. apply generates_GenEvent in Hgen.
  shapes Hgen.
  - destruct user, ip, amount; simpl; split; intros H; congruence.
  - destruct duration, user; simpl; split; intros H; congruence.
  - simpl. split; intros H; congruence.
Qed.

Lemma error_field_iff_error_level_witness :
  getitem highest_event "error" <> None <->
  getitem highest_event "level" = Some (VStr "ERROR").
Proof.
  apply (@error_field_iff_error_level (world_of highest noon) highest_event).
  vm_compute. reflexivity.
Defined.

(** X2. An amount is attached to INFO events of the payment service only,
    so that no event has both an amount and an ip_address. *)
Theorem amount_of_payment_service (w : World) (log : LogEvent) (x : value) :
  generates w log ->
  getitem log "amount" = Some x ->
  getitem log "level" = Some (VStr "INFO") /\
  getitem log "service" = Some (VStr "payment-service") /\
  getitem log "ip_address" = None.
Proof.
  intros Hgen Hx. apply generates_GenEvent in Hgen.
  shapes Hgen.
  - destruct amount as [v |].
    + destruct (Ha v eq_refl) as (-> & _).
      destruct ip as [a |].
      * destruct (Hip a eq_refl) as (E & _). discriminate E.
      * destruct user; repeat split; reflexivity.
    + destruct user, ip; discriminate Hx.
  - destruct duration, user; discriminate Hx.
  - discriminate Hx.
Qed.

Lemma amount_of_payment_service_witness :
  getitem payment_event "level" = Some (VStr "INFO") /\
  getitem payment_event "service" = Some (VStr "payment-service") /\
  getitem payment_event "ip_address" = None.
Proof.
  apply (@amount_of_payment_service (world_of payment noon) payment_event
           (VFloat (5623870034678907 # 562949953421312))).
  - vm_compute. reflexivity.
  - reflexivity.
Defined.

Lemma all_from_spec (P : Z -> bool) (n : nat) (z k : Z) :
  all_from P z n = true -> (z <= k < z + Z.of_nat n)%Z -> P k = true.
Proof.
  revert z. induction n as [| n IH]; intros z H Hk; [lia |].
  cbn [all_from] in H. apply andb_prop in H as [H0 H1].
  destruct (Z.eq_dec k z) as [-> | Hne]; [assumption |].
  apply (IH (z + 1)%Z); [assumption | lia].
Qed.

Lemma user_id_five_digits (u : Z) :
  (10000 <= u <= 99999)%Z -> matches_user_id ("user-" ++ str_of_Z u) = true.
Proof.
  intros Hu.
  apply (@all_from_spec (fun u => matches_user_id ("user-" ++ str_of_Z u))
           (Z.to_nat 90000) 10000 u);
    [vm_compute; reflexivity | rewrite Z2Nat.id by lia; lia].
Qed.

(** X3. The user_id of a generated event, when there is one, matches
    [user-[0-9]{5}]: it is "user-" and the decimal digits of an integer from
    10000 to 99999; the event is an INFO or a WARN one. *)
Theorem user_id_format (w : World) (log : LogEvent) (x : value) :
  generates w log ->
  getitem log "user_id" = Some x ->
  (exists u, (10000 <= u <= 99999)%Z /\ x = VStr ("user-" ++ str_of_Z u) /\
             matches_user_id ("user-" ++ str_of_Z u) = true) /\
  (getitem log "level" = Some (VStr "INFO") \/
   getitem log "level" = Some (VStr "WARN")).
Proof.
  intros Hgen Hx. apply generates_GenEvent in Hgen.
  shapes Hgen.
  - destruct user as [v |].
    + assert (v = x) by (destruct ip, amount; simpl in Hx; congruence). subst v.
      destruct (Hu x eq_refl) as (u & Hrange & ->).
      split; [| left; destruct ip, amount; reflexivity].
      exists u. auto using user_id_five_digits.
    + destruct ip, amount; discriminate Hx.
  - destruct user as [v |].
    + assert (v = x) by (destruct duration; simpl in Hx; congruence). subst v.
      destruct (Hu x eq_refl) as (u & Hrange & ->).
      split; [| right; destruct duration; reflexivity].
      exists u. auto using user_id_five_digits.
    + destruct duration; discriminate Hx.
  - discriminate Hx.
Qed.

Lemma user_id_format_witness :
  (exists u, (10000 <= u <= 99999)%Z /\
             VStr "user-10000" = VStr ("user-" ++ str_of_Z u) /\
             matches_user_id ("user-" ++ str_of_Z u) = true) /\
  (getitem lowest_event "level" = Some (VStr "INFO") \/
   getitem lowest_event "level" = Some (VStr "WARN")).
Proof.
  apply (@user_id_format (world_of lowest noon) lowest_event).
  - vm_compute. reflexivity.
  - reflexivity.
Defined.

Lemma existsb_eqb_In (x : string) (l : list string) :
  existsb (String.eqb x) l = true <-> In x l.
Proof.
  rewrite existsb_exists. split.
  - intros (y & Hy & E). apply String.eqb_eq in E. subst y. exact Hy.
  - intros H. exists x. split; [exact H | apply String.eqb_refl].
Qed.

Lemma distinct_NoDup (l : list string) : distinct l = true -> NoDup l.
Proof.
  induction l as [| x l IH]; intros H; [constructor |].
  cbn [distinct] in H. apply andb_prop in H as [H0 H1].
  constructor; [| apply IH; exact H1].
  intros Hin. apply existsb_eqb_In in Hin. rewrite Hin in H0. discriminate H0.
Qed.

Lemma all_among_incl (l allowed : list string) :
  all_among l allowed = true -> incl l allowed.
Proof.
  unfold all_among. rewrite forallb_forall. intros H x Hx.
  apply existsb_eqb_In. apply H. exact Hx.
Qed.

Lemma no_amount_with_address (w : World) (log : LogEvent) :
  generates w log ->
  forall a x, getitem log "ip_address" = Some a ->
              getitem log "amount" = Some x -> False.
Proof.
  intros Hgen a x Hip' Hx. apply generates_GenEvent in Hgen.
  shapes Hgen.
  - destruct amount as [v |].
    + destruct (Ha v eq_refl) as (-> & _).
      destruct ip as [c |].
      * destruct (Hip c eq_refl) as (E & _). discriminate E.
      * destruct user; discriminate Hip'.
    + destruct user, ip; discriminate Hx.
  - destruct duration, user; discriminate Hx.
  - discriminate Hx.
Qed.

(** X4. The keys of a generated record are pairwise distinct; the first
    five are timestamp, level, service, host and request_id, in this order;
    all are among the twelve known field names, and there are from 7 to 10
    of them. *)
Theorem record_keys (w : World) (log : LogEvent) :
  generates w log ->
  NoDup (keys log) /\
  firstn 5 (keys log) = ["timestamp"; "level"; "service"; "host"; "request_id"] /\
  incl (keys log) known_fields /\
  7 <= length (keys log) <= 10.
Proof.
  intros Hgen. pose proof (generates_GenEvent Hgen) as G.
  pose proof (@no_amount_with_address w log Hgen) as Hboth.
  shapes G.
  - destruct user, ip, amount;
      try (exfalso; eapply Hboth; reflexivity);
      (split; [apply distinct_NoDup; reflexivity |]);
      (split; [reflexivity |]);
      (split; [apply all_among_incl; reflexivity | simpl; lia]).
  - destruct duration, user;
      (split; [apply distinct_NoDup; reflexivity |]);
      (split; [reflexivity |]);
      (split; [apply all_among_incl; reflexivity | simpl; lia]).
  - (split; [apply distinct_NoDup; reflexivity |]);
      (split; [reflexivity |]);
      (split; [apply all_among_incl; reflexivity | simpl; lia]).
Qed.

Lemma record_keys_witness :
  NoDup (keys lowest_event) /\
  firstn 5 (keys lowest_event)
  = ["timestamp"; "level"; "service"; "host"; "request_id"] /\
  incl (keys lowest_event) known_fields /\
  7 <= length (keys lowest_event) <= 10.
Proof.
  apply (@record_keys (world_of lowest noon) lowest_event).
  vm_compute. reflexivity.
Defined.

(** X5. The level of a generated event is one of the three of
    [LOG_LEVELS], its service is one of [SERVICES], and its message comes
    from the catalog of its level. *)
Theorem message_of_level (w : World) (log : LogEvent) :
  generates w log ->
  exists level service message,
    getitem log "level" = Some (VStr level) /\
    getitem log "service" = Some (VStr service) /\
    getitem log "message" = Some (VStr message) /\
    In level (keys LOG_LEVELS) /\
    In service SERVICES /\
    (level = "INFO" /\ In message INFO_MESSAGES \/
     level = "WARN" /\ In message WARN_MESSAGES \/
     level = "ERROR" /\ In message (map fst ERROR_MESSAGES)).
Proof.
  intros Hgen. apply generates_GenEvent in Hgen.
  shapes Hgen.
  - exists "INFO", service, message.
    repeat split; try (destruct user, ip, amount; reflexivity);
      try assumption; simpl; auto.
  - exists "WARN", service, message.
    repeat split; try (destruct duration, user; reflexivity);
      try assumption; simpl; auto.
  - exists "ERROR", service, message.
    repeat split; try reflexivity; try assumption; [simpl; auto |].
    right; right. split; [reflexivity |].
    apply (in_map fst) in Hm. exact Hm.
Qed.

Lemma message_of_level_witness :
  exists level service message,
    getitem highest_event "level" = Some (VStr level) /\
    getitem highest_event "service" = Some (VStr service) /\
    getitem highest_event "message" = Some (VStr message) /\
    In level (keys LOG_LEVELS) /\
    In service SERVICES /\
    (level = "INFO" /\ In message INFO_MESSAGES \/
     level = "WARN" /\ In message WARN_MESSAGES \/
     level = "ERROR" /\ In message (map fst ERROR_MESSAGES)).
Proof.
  apply (@message_of_level (world_of highest noon) highest_event).
  vm_compute. reflexivity.
Defined.

Lemma generates_timestamp (w : World) (log : LogEvent) :
  generates w log ->
  exists rest, log = ("timestamp", VStr (timestamp_of (clock w (reads w)))) :: rest.
Proof.
  intros Hgen.
  pose proof (@generate_log_event_twins
                (fun t1 t2 => t1 = clock w (reads w) /\ t2 = clock w (reads w))
                w w) as H.
  specialize (H ltac:(split; [intros i; reflexivity | split; reflexivity])).
  unfold generates in Hgen.
  destruct (generate_log_event w) as [r w']. simpl in Hgen. subst r.
  destruct H as [(t1 & t2 & rest & [-> ->] & -> & _) _].
  exists rest. reflexivity.
Qed.

Lemma no_plus_app (s1 s2 : string) :
  no_plus (s1 ++ s2) = no_plus s1 && no_plus s2.
Proof.
  unfold no_plus. induction s1 as [| c s1 IH]; [reflexivity |].
  cbn [append list_ascii_of_string forallb]. rewrite IH. apply andb_assoc.
Qed.

Lemma no_plus_uint (d : Decimal.uint) : no_plus (NilEmpty.string_of_uint d) = true.
Proof. induction d; cbn; assumption || reflexivity. Qed.

Lemma no_plus_str_of_N (n : N) : no_plus (str_of_N n) = true.
Proof.
  unfold str_of_N, str_of_Z. destruct n as [| p]; [reflexivity |].
  cbn [Z.of_N Z.to_int NilZero.string_of_int].
  unfold NilZero.string_of_uint.
  pose proof (no_plus_uint (Pos.to_uint p)) as H.
  destruct (Pos.to_uint p); [reflexivity | exact H ..].
Qed.

Lemma no_plus_repeat_zero (n : nat) : no_plus (repeat_char "0" n) = true.
Proof. induction n; [reflexivity | exact IHn]. Qed.

Lemma no_plus_zfill (width : nat) (n : N) : no_plus (zfill width n) = true.
Proof.
  unfold zfill. rewrite no_plus_app, no_plus_repeat_zero, no_plus_str_of_N.
  reflexivity.
Qed.

Lemma no_plus_local_time (d : datetime) : no_plus (local_time d) = true.
Proof.
  unfold local_time.
  repeat (rewrite no_plus_app; rewrite ?no_plus_zfill; cbn [andb]).
  destruct (microsecond d =? 0)%N; [reflexivity |].
  rewrite no_plus_app, no_plus_zfill. reflexivity.
Qed.

Lemma append_assoc (s1 s2 s3 : string) : (s1 ++ s2) ++ s3 = s1 ++ (s2 ++ s3).
Proof. induction s1 as [| c s1 IH]; cbn; [| rewrite IH]; reflexivity. Qed.

Lemma isoformat_local_time (d : datetime) :
  datetime_.isoformat d = local_time d ++ "+00:00".
Proof.
  unfold datetime_.isoformat, local_time. rewrite !append_assoc. reflexivity.
Qed.

(** [replace] changes the offset at the end, and nothing before it. *)
Lemma replace_offset (s : string) :
  no_plus s = true -> replace (s ++ "+00:00") "+00:00" "Z" = s ++ "Z".
Proof.
  unfold replace. induction s as [| c s IH]; intros H; [reflexivity |].
  unfold no_plus in H. cbn [list_ascii_of_string forallb] in H.
  apply andb_prop in H as [Hc Hs].
  cbn [append replace_from String.prefix].
  destruct (Ascii.eqb_spec "+" c) as [<- | Hne]; [discriminate Hc |].
  destruct (ascii_dec "+" c) as [E | _]; [contradiction |].
  rewrite (IH Hs). reflexivity.
Qed.

(** X6. The timestamp of a generated event is the ISO-8601 date and time
    of the reading of the clock, down to the microseconds when there are
    some, followed by "Z": the replacement writes the offset +00:00 as Z and
    changes nothing else. *)
Theorem timestamp_is_zulu (w : World) (log : LogEvent) :
  generates w log ->
  getitem log "timestamp"
  = Some (VStr (local_time (clock w (reads w)) ++ "Z")).
Proof.
  intros Hgen. destruct (generates_timestamp Hgen) as (rest & ->).
  cbn [getitem]. rewrite String.eqb_refl.
  unfold timestamp_of. rewrite isoformat_local_time, replace_offset;
    [reflexivity | apply no_plus_local_time].
Qed.

Lemma timestamp_is_zulu_witness :
  getitem lowest_event "timestamp" = Some (VStr (local_time noon ++ "Z")).
Proof.
  apply (@timestamp_is_zulu (world_of lowest noon) lowest_event).
  vm_compute. reflexivity.
Defined.

(** X7. One call of [generate_log_event] reads the clock exactly once,
    makes a number of calls of the functions of the [random] module that
    depends on the level of the event alone (7 at ERROR, from 8 to 10 at
    WARN, from 10 to 13 at INFO), and does nothing else to the world.  How
    many outputs of the generator these calls consume is not said: it is not
    fixed. *)
Theorem calls_by_level (w : World) (log : LogEvent) :
  generates w log ->
  exists d,
    snd (generate_log_event w) = advanced w d 1 /\
    (getitem log "level" = Some (VStr "INFO") /\ 10 <= d <= 13 \/
     getitem log "level" = Some (VStr "WARN") /\ 8 <= d <= 10 \/
     getitem log "level" = Some (VStr "ERROR") /\ d = 7).
Proof.
  intros Hgen.
  destruct (message_levels Hgen) as [L | [L | L]];
    unfold generates in Hgen;
    destruct (generate_log_event w) as [r w'] eqn:E; cbn [fst snd] in *; subst r;
    destruct (generate_log_event_uses w E) as (d & t & -> & -> & HI & HW & HE);
    exists d; (split; [reflexivity |]); auto.
Qed.

Lemma calls_by_level_witness :
  exists d,
    snd (generate_log_event (world_of highest noon))
    = advanced (world_of highest noon) d 1 /\
    (getitem highest_event "level" = Some (VStr "INFO") /\ 10 <= d <= 13 \/
     getitem highest_event "level" = Some (VStr "WARN") /\ 8 <= d <= 10 \/
     getitem highest_event "level" = Some (VStr "ERROR") /\ d = 7).
Proof.
  apply (@calls_by_level (world_of highest noon) highest_event).
  vm_compute. reflexivity.
Defined.

(** * Further properties of [weighted_choice] *)

Lemma accumulate_nil (l : list Q) : accumulate l = [] -> l = [].
Proof. destruct l; [reflexivity | discriminate]. Qed.

(** X8. When the mapping is empty or its total weight is not positive,
    [weighted_choice] raises, [IndexError] for the empty mapping and
    [ValueError] otherwise, and takes no draw of the random source: the world
    is as it was. *)
Theorem weighted_choice_raises (choices : dict Q) (w : World) :
  length choices = 0 \/ (total_weight choices <= 0)%Q ->
  weighted_choice choices w
  = (Raise (if (length choices =? 0)%nat
            then IndexError "list index out of range"
            else ValueError "Total of weights must be greater than zero"), w).
Proof.
  intros H. destruct choices as [| [k0 x0] choices]; [reflexivity |].
  destruct H as [H | H]; [discriminate H |].
  cbn [length Nat.eqb].
  unfold weighted_choice, random.choices.
  set (items := keys ((k0, x0) :: choices)).
  set (weights := values ((k0, x0) :: choices)).
  assert (Hlen : length (accumulate weights) = length items).
  { rewrite accumulate_length. unfold weights, items, values, keys.
    rewrite !length_map. reflexivity. }
  rewrite Hlen, Nat.eqb_refl. cbn [negb].
  assert (Hlast : nth_error (accumulate weights) (length items - 1)
                  = Some (last (accumulate weights) 0%Q)).
  { rewrite <- Hlen. apply nth_error_last. discriminate. }
  unfold bind at 1. unfold bind at 1. unfold index at 1. rewrite Hlast.
  unfold ret at 1. cbv beta iota.
  unfold total_weight in H. fold weights in H.
  apply Qle_bool_iff in H. rewrite H. reflexivity.
Qed.

Lemma weighted_choice_raises_witness :
  weighted_choice [("INFO", 0%Q); ("WARN", 0%Q)] (world_of lowest noon)
  = (Raise (ValueError "Total of weights must be greater than zero"),
     world_of lowest noon).
Proof.
  apply (@weighted_choice_raises [("INFO", 0%Q); ("WARN", 0%Q)]
           (world_of lowest noon)).
  right. vm_compute. discriminate.
Defined.

Lemma nondecreasing_sorted (a : list Q) :
  nondecreasing a = true ->
  forall i j, i <= j < length a -> (nth i a 0 <= nth j a 0)%Q.
Proof.
  induction a as [| x a IH]; intros H i j Hij; [simpl in Hij; lia |].
  assert (Ha : nondecreasing a = true).
  { cbn [nondecreasing] in H. destruct a; [reflexivity |].
    apply andb_prop in H as [_ H]. exact H. }
  assert (Hx : forall j, j < length a -> (x <= nth j a 0)%Q).
  { intros k Hk. destruct a as [| y a']; [simpl in Hk; lia |].
    cbn [nondecreasing] in H. apply andb_prop in H as [H _].
    apply Qle_bool_iff in H.
    apply Qle_trans with (1 := H).
    apply (IH Ha 0 k). lia. }
  destruct i as [| i], j as [| j]; cbn [nth].
  - apply Qle_refl.
  - apply Hx. simpl in Hij. lia.
  - lia.
  - apply (IH Ha). simpl in Hij. lia.
Qed.

(** On a list that never decreases, the search returns the first place
    from which the elements are above [x]. *)
Lemma bisect_spec (a : list Q) (x : Q) (lo hi : nat) :
  nondecreasing a = true -> lo <= hi <= length a ->
  lo <= bisect a x lo hi <= hi /\
  (forall j, lo <= j < bisect a x lo hi -> (nth j a 0 <= x)%Q) /\
  (forall j, bisect a x lo hi <= j < hi -> (x < nth j a 0)%Q).
Proof.
  intros Ha. pose proof (nondecreasing_sorted a Ha) as Hs.
  remember (hi - lo) as n eqn:En. revert lo hi En.
  induction n as [n IH] using lt_wf_ind. intros lo hi En Hb.
  rewrite bisect_equation_1.
  destruct (lt_dec lo hi) as [Hlt | Hge]; cbn [bisect_unfold_clause_1].
  2: { repeat split; try lia; intros j Hj; lia. }
  assert (Hm1 : (lo + hi) / 2 < hi) by (apply Nat.Div0.div_lt_upper_bound; lia).
  assert (Hm2 : lo <= (lo + hi) / 2) by (apply Nat.div_le_lower_bound; lia).
  set (mid := (lo + hi) / 2) in *.
  unfold Float.Qltb.
  destruct (Qle_bool (nth mid a 0%Q) x) eqn:T;
    cbn [negb bisect_unfold_clause_1_clause_1];
    change ((lo + hi) / 2) with mid.
  - apply Qle_bool_iff in T.
    destruct (IH (hi - (mid + 1)) ltac:(lia) (mid + 1) hi eq_refl ltac:(lia))
      as (B & L & U).
    split; [lia |]. split; [| exact U].
    intros j Hj. destruct (le_lt_dec j mid) as [Hjm | Hjm].
    + apply Qle_trans with (2 := T). apply Hs. lia.
    + apply L. lia.
  - assert (T' : (x < nth mid a 0)%Q).
    { apply Qnot_le_lt. intros C. apply Qle_bool_iff in C. congruence. }
    destruct (IH (mid - lo) ltac:(lia) lo mid eq_refl ltac:(lia))
      as (B & L & U).
    split; [lia |]. split; [exact L |].
    intros j Hj. destruct (le_lt_dec mid j) as [Hjm | Hjm].
    + apply Qlt_le_trans with (1 := T'). apply Hs. lia.
    + apply U. lia.
Qed.

(** X9. When the running float sums of the weights never decrease (as with
    weights that are not negative) and their total is positive and finite,
    [weighted_choice] makes one call of [random.random], for an [r] in
    [0, 1), and returns the outcome at the first place [p] whose running sum
    is above [r * total]: the sums before [p] are at most [r * total]; the
    last outcome takes what is left. *)
Theorem weighted_choice_interval (choices : dict Q) (w : World) :
  0 < length choices ->
  (0 < total_weight choices)%Q ->
  Float.isfinite (total_weight choices) = true ->
  nondecreasing (running_sums choices) = true ->
  exists p item,
    fst (weighted_choice choices w) = Ok item /\
    nth_error (keys choices) p = Some item /\
    drawn (snd (weighted_choice choices w)) = drawn w + 1 /\
    let x := Float.fmul (unit_float (rng w (drawn w))) (total_weight choices) in
    (forall j, j < p -> (nth j (running_sums choices) 0 <= x)%Q) /\
    (p < length choices - 1 -> (x < nth p (running_sums choices) 0)%Q).
Proof.
  intros Hpos Htotal Hfinite Hsorted.
  unfold running_sums in *. unfold total_weight in *.
  set (items := keys choices). set (weights := values choices) in *.
  assert (Hitems : length items = length choices)
    by (unfold items, keys; apply length_map).
  assert (Hlen : length (accumulate weights) = length items).
  { rewrite accumulate_length. unfold weights, items, values, keys.
    rewrite !length_map. reflexivity. }
  assert (Hlast : nth_error (accumulate weights) (length items - 1)
                  = Some (last (accumulate weights) 0%Q)).
  { rewrite <- Hlen. apply nth_error_last. intros E.
    rewrite E in Hlen. simpl in Hlen. lia. }
  set (total := Float.add (last (accumulate weights) 0%Q) 0) in *.
  set (x := Float.fmul (unit_float (rng w (drawn w))) total).
  destruct (@bisect_spec (accumulate weights) x 0 (length items - 1) Hsorted
              ltac:(lia)) as (B & L & U).
  set (p := bisect (accumulate weights) x 0 (length items - 1)) in *.
  destruct (nth_error items p) as [item |] eqn:E.
  2: { apply nth_error_None in E. lia. }
  assert (Hrun : weighted_choice choices w
                 = (Ok item,
                    mkWorld (rng w) (S (drawn w)) (clock w) (reads w)
                            (broker w) (sent w) (nap w) (naps w) (trace w))).
  { unfold weighted_choice, random.choices. fold items weights.
    rewrite Hlen, Nat.eqb_refl. cbn [negb].
    unfold bind at 1. unfold bind at 1. unfold index at 1. rewrite Hlast.
    unfold ret at 1. cbv beta iota. fold total.
    destruct (Qle_bool total 0) eqn:T.
    { apply Qle_bool_iff in T. lra. }
    rewrite Hfinite. cbn [negb].
    pose proof E as E'. unfold p, x, unit_float in E'.
    repeat (unfold bind, random.random, random.draw, ret, index;
            cbv beta iota; cbn [rng drawn]).
    rewrite E'. reflexivity. }
  exists p, item. rewrite Hrun. cbn [fst snd drawn].
  split; [reflexivity |]. split; [exact E |]. split; [lia |].
  split.
  - intros j Hj. apply L. lia.
  - intros Hp. apply U. lia.
Qed.

Lemma weighted_choice_interval_witness :
  exists p item,
    fst (weighted_choice LOG_LEVELS (world_of highest noon)) = Ok item /\
    nth_error (keys LOG_LEVELS) p = Some item /\
    drawn (snd (weighted_choice LOG_LEVELS (world_of highest noon)))
    = drawn (world_of highest noon) + 1 /\
    let x := Float.fmul
               (unit_float (rng (world_of highest noon)
                              (drawn (world_of highest noon))))
               (total_weight LOG_LEVELS) in
    (forall j, j < p -> (nth j (running_sums LOG_LEVELS) 0 <= x)%Q) /\
    (p < length LOG_LEVELS - 1 -> (x < nth p (running_sums LOG_LEVELS) 0)%Q).
Proof.
  apply (@weighted_choice_interval LOG_LEVELS (world_of highest noon)).
  - simpl. lia.
  - vm_compute. reflexivity.
  - vm_compute. reflexivity.
  - vm_compute. reflexivity.
Defined.

(** * Further properties of the producer loop *)

(** X10. Whatever the broker answers, [produce_logs] returns, and what it
    does is: the opening line, the rounds with their [count] sends, one
    flush after the last round and none before, and then the line that
    reports success, also when sends have failed. *)
Theorem produce_logs_flushes_once (topic : string) (count : Z) (delay : Q) (w : World) :
  exists w' rounds,
    produce_logs topic count delay w = (Ok tt, w') /\
    trace w' = (trace w ++ Print (first_line topic count) :: rounds
                        ++ [Flush; Print (last_line count)])%list /\
    length (sends_of rounds) = Z.to_nat count /\
    ~ In Flush rounds.
Proof.
  destruct (produce_logs_run topic count delay w)
    as (rounds & d & E & _ & Rs & _).
  eexists _, rounds. split; [exact E |]. split; [reflexivity |].
  exact (Rounds_sends Rs).
Qed.

(** X11. The loop calls [time.sleep] only when [delay] is positive, each
    time with [delay] seconds, once after each send that was delivered, the
    last send of the run apart, and never after a send that failed.  These
    are the calls: whether a call returns after the delay or raises is the
    platform's answer, and the loop goes on in either case. *)
Theorem produce_logs_sleeps (topic : string) (count : Z) (delay : Q) (w : World) :
  let calls :=
    if Float.Qltb 0 delay
    then length (filter delivered
                   (answers (broker w) (sent w) (Z.to_nat count - 1)))
    else 0 in
  exists w' new,
    produce_logs topic count delay w = (Ok tt, w') /\
    trace w' = (trace w ++ new)%list /\
    sleeps_of new = repeat delay calls /\
    naps w' = naps w + calls.
Proof.
  intros calls.
  destruct (produce_logs_run topic count delay w)
    as (rounds & d & E & _ & Rs & _).
  assert (Hc : Z.to_nat count = 0 \/ (0 + Z.of_nat (Z.to_nat count) = count)%Z)
    by (destruct (Z.to_nat count) eqn:En; [left; reflexivity | right; lia]).
  eexists _, _. split; [exact E |]. split; [reflexivity |].
  cbn [naps].
  split.
  - cbn [sleeps_of]. rewrite sleeps_of_app. cbn [sleeps_of]. rewrite app_nil_r.
    apply (Rounds_sleeps Rs Hc).
  - f_equal. apply naps_in_run. exact Hc.
Qed.


(** X13. A run of [produce_logs] takes one answer of the broker and one
    reading of the clock for each event, and makes from 7 to 13 calls of the
    functions of the [random] module for each event; it leaves the random
    source, the clock and the broker as they are. *)
Theorem produce_logs_accounting (topic : string) (count : Z) (delay : Q) (w : World) :
  exists w',
    produce_logs topic count delay w = (Ok tt, w') /\
    rng w' = rng w /\ clock w' = clock w /\ broker w' = broker w /\
    sent w' = sent w + Z.to_nat count /\
    reads w' = reads w + Z.to_nat count /\
    drawn w + 7 * Z.to_nat count <= drawn w' <= drawn w + 13 * Z.to_nat count.
Proof.
  destruct (produce_logs_run topic count delay w)
    as (rounds & d & E & Hd & _).
  eexists. split; [exact E |].
  cbn [rng clock broker sent reads drawn]. repeat split; lia.
Qed.

(** X14. With a [count] of zero or below, [produce_logs] sends nothing and
    generates nothing; it prints its first line, flushes, and reports the
    success of [count] events. *)
Theorem produce_logs_no_event (topic : string) (count : Z) (delay : Q) (w : World) :
  (count <= 0)%Z ->
  produce_logs topic count delay w
  = (Ok tt,
     mkWorld (rng w) (drawn w) (clock w) (reads w) (broker w) (sent w)
             (nap w) (naps w)
             (trace w ++ [Print (first_line topic count); Flush;
                          Print (last_line count)])).
Proof.
  intros Hc. rewrite produce_logs_loop.
  replace (Z.to_nat count) with 0 by lia.
  cbn [for_range]. unfold bind, print, emit, ret.
  cbn [rng drawn clock reads broker sent nap naps trace].
  rewrite <- !app_assoc. reflexivity.
Qed.

Lemma produce_logs_no_event_witness :
  produce_logs "application-logs" (-3) 0 (world_of lowest noon)
  = (Ok tt,
     mkWorld (rng (world_of lowest noon)) (drawn (world_of lowest noon))
             (clock (world_of lowest noon)) (reads (world_of lowest noon))
             (broker (world_of lowest noon)) (sent (world_of lowest noon))
             (nap (world_of lowest noon)) (naps (world_of lowest noon))
             (trace (world_of lowest noon)
              ++ [Print (first_line "application-logs" (-3)); Flush;
                  Print (last_line (-3))])).
Proof.
  apply (@produce_logs_no_event "application-logs" (-3) 0 (world_of lowest noon)).
  lia.
Defined.

(** * Properties of [create_producer] *)

Lemma truthy_obj (o : option string) :
  truthy (obj o) = true <-> exists s, o = Some s /\ s <> EmptyString.
Proof.
  destruct o as [s |]; simpl.
  - destruct (String.eqb_spec s EmptyString) as [-> | N]; simpl.
    + split; [discriminate | intros (s & E & N); congruence].
    + split; [eauto | reflexivity].
  - split; [discriminate | intros (s & E & _); discriminate E].
Qed.

(** The run of [create_producer], by the cases of its tests. *)
Ltac run_create :=
  unfold create_producer, KafkaProducer, Script.bind, Script.print,
         Script.print_exc, Script.exit, Script.ret;
  cbn [negb orb fst snd app constructed written length].

(** Either a test on the credentials stops the run before the constructor
    is called, or the constructor is called once, and decides. *)
Lemma create_producer_cases (json_dumps : LogEvent -> string) (Producer : Type)
      (connect : dict setting -> exception + Producer)
      (bootstrap_servers security_protocol : string)
      (sasl_mechanism sasl_username sasl_password : option string) :
  let r := create_producer json_dumps connect bootstrap_servers security_protocol
                           sasl_mechanism sasl_username sasl_password in
  let sasl := in_list (Some security_protocol) sasl_protocols in
  let incomplete :=
    sasl && (negb (truthy (obj sasl_mechanism))
             || in_list sasl_mechanism with_credentials
                && (negb (truthy (obj sasl_username))
                    || negb (truthy (obj sasl_password)))) in
  if incomplete then
    constructed (fst r) = None /\ snd r = Exited 1 /\
    exists line1 line2, fst r = [Stdout line1; Stdout line2]
  else
    exists config,
      constructed (fst r) = Some config /\
      config
      = ([("bootstrap_servers", Text (Some bootstrap_servers));
          ("value_serializer", ValueSerializer (value_serializer json_dumps));
          ("key_serializer", KeySerializer key_serializer);
          ("security_protocol", Text (Some security_protocol))]
         ++ (if sasl then
               ("sasl_mechanism", Text sasl_mechanism)
               :: (if in_list sasl_mechanism with_credentials then
                     [("sasl_plain_username", Text sasl_username);
                      ("sasl_plain_password", Text sasl_password)]
                   else [])
             else []))%list /\
      match connect config with
      | inr producer => r = ([Construct config], Returned producer)
      | inl e => snd r = Exited 1
      end.
Proof.
  unfold sasl_protocols, with_credentials. run_create.
  destruct (in_list (Some security_protocol) ["SASL_PLAINTEXT"; "SASL_SSL"]);
    cbn [andb].
  2: { eexists. split; [| split; [reflexivity |]];
         cbn [app]; destruct (connect _); reflexivity. }
  destruct (truthy (obj sasl_mechanism)); cbn [negb orb];
    [| split; [reflexivity |]; split; [reflexivity |]; eexists _, _; reflexivity].
  destruct (in_list sasl_mechanism ["PLAIN"; "SCRAM-SHA-256"; "SCRAM-SHA-512"]);
    cbn [andb].
  2: { eexists. split; [| split; [reflexivity |]];
         cbn [app setitem String.eqb Ascii.eqb Bool.eqb];
         destruct (connect _); reflexivity. }
  destruct (truthy (obj sasl_username)), (truthy (obj sasl_password));
    cbn [negb orb];
    try (split; [reflexivity |]; split; [reflexivity |]; eexists _, _; reflexivity).
  eexists. split; [| split; [reflexivity |]];
    cbn [app setitem String.eqb Ascii.eqb Bool.eqb];
    destruct (connect _); reflexivity.
Qed.

(** X15. [create_producer] either returns the producer that the
    constructor gave, having written nothing, or leaves through [sys.exit]
    with the status 1: an exception of the constructor does not escape, and
    there is no other status. *)
Theorem create_producer_returns_or_exits (json_dumps : LogEvent -> string)
      (Producer : Type) (connect : dict setting -> exception + Producer)
      (bootstrap_servers security_protocol : string)
      (sasl_mechanism sasl_username sasl_password : option string) :
  let r := create_producer json_dumps connect bootstrap_servers security_protocol
                           sasl_mechanism sasl_username sasl_password in
  (exists config producer,
      r = ([Construct config], Returned producer) /\
      connect config = inr producer) \/
  snd r = Exited 1.
Proof.
  intros r.
  pose proof (create_producer_cases json_dumps connect bootstrap_servers
                security_protocol sasl_mechanism sasl_username sasl_password) as H.
  cbv zeta in H. fold r in H.
  destruct (_ && _) in H.
  - right. tauto.
  - destruct H as (config & _ & _ & H).
    destruct (connect config) as [e | producer] eqn:E; [right; exact H |].
    left. eauto.
Qed.

(** X16. The constructor is not called exactly when the protocol is
    SASL_PLAINTEXT or SASL_SSL and either the mechanism is missing or empty,
    or the mechanism is PLAIN, SCRAM-SHA-256 or SCRAM-SHA-512 and the
    username or the password is missing or empty; [create_producer] then
    prints two lines and exits with the status 1. *)
Theorem create_producer_guards (json_dumps : LogEvent -> string)
      (Producer : Type) (connect : dict setting -> exception + Producer)
      (bootstrap_servers security_protocol : string)
      (sasl_mechanism sasl_username sasl_password : option string) :
  let r := create_producer json_dumps connect bootstrap_servers security_protocol
                           sasl_mechanism sasl_username sasl_password in
  (constructed (fst r) = None <->
   in_list (Some security_protocol) sasl_protocols = true /\
   (truthy (obj sasl_mechanism) = false \/
    in_list sasl_mechanism with_credentials = true /\
    (truthy (obj sasl_username) = false \/
     truthy (obj sasl_password) = false))) /\
  (constructed (fst r) = None ->
   snd r = Exited 1 /\ exists line1 line2, fst r = [Stdout line1; Stdout line2]).
Proof.
  intros r.
  pose proof (create_producer_cases json_dumps connect bootstrap_servers
                security_protocol sasl_mechanism sasl_username sasl_password) as H.
  cbv zeta in H. fold r in H.
  destruct (in_list (Some security_protocol) sasl_protocols),
           (truthy (obj sasl_mechanism)),
           (in_list sasl_mechanism with_credentials),
           (truthy (obj sasl_username)),
           (truthy (obj sasl_password));
    cbn [andb orb negb] in H;
    try (destruct H as (config & H & _);
         split; [split; [congruence | intuition discriminate] | congruence]);
    (destruct H as (H1 & H2 & H3); split; [split; [intuition auto | auto] | auto]).
Qed.

(** X17. The keyword arguments that the constructor gets: always the four
    base settings, first.  Without a SASL protocol nothing else, whatever
    mechanism, username and password were given.  With a SASL protocol the
    mechanism, which is a non-empty string; and, for PLAIN and the two
    SCRAM mechanisms only, the username and the password, both non-empty
    strings. *)
Theorem create_producer_config (json_dumps : LogEvent -> string)
      (Producer : Type) (connect : dict setting -> exception + Producer)
      (bootstrap_servers security_protocol : string)
      (sasl_mechanism sasl_username sasl_password : option string)
      (config : dict setting) :
  constructed (fst (create_producer json_dumps connect bootstrap_servers
                      security_protocol sasl_mechanism sasl_username
                      sasl_password)) = Some config ->
  firstn 4 config
  = [("bootstrap_servers", Text (Some bootstrap_servers));
     ("value_serializer", ValueSerializer (value_serializer json_dumps));
     ("key_serializer", KeySerializer key_serializer);
     ("security_protocol", Text (Some security_protocol))] /\
  (in_list (Some security_protocol) sasl_protocols = false ->
   keys config = base_settings) /\
  (in_list (Some security_protocol) sasl_protocols = true ->
   (exists mechanism,
       sasl_mechanism = Some mechanism /\ mechanism <> EmptyString /\
       getitem config "sasl_mechanism" = Some (Text (Some mechanism))) /\
   (in_list sasl_mechanism with_credentials = false ->
    keys config = (base_settings ++ ["sasl_mechanism"])%list) /\
   (in_list sasl_mechanism with_credentials = true ->
    exists username password,
      sasl_username = Some username /\ username <> EmptyString /\
      sasl_password = Some password /\ password <> EmptyString /\
      getitem config "sasl_plain_username" = Some (Text (Some username)) /\
      getitem config "sasl_plain_password" = Some (Text (Some password)) /\
      keys config = (base_settings ++ ["sasl_mechanism"; "sasl_plain_username";
                                       "sasl_plain_password"])%list)).
Proof.
  intros Hc.
  pose proof (create_producer_cases json_dumps connect bootstrap_servers
                security_protocol sasl_mechanism sasl_username sasl_password) as H.
  cbv zeta in H.
  destruct (in_list (Some security_protocol) sasl_protocols) eqn:Hsasl;
    cbn [andb] in H.
  - destruct (truthy (obj sasl_mechanism)) eqn:Hm; cbn [negb orb] in H;
      [| destruct H as (H & _); congruence].
    apply truthy_obj in Hm as (mechanism & -> & Nm).
    destruct (in_list (Some mechanism) with_credentials) eqn:Hw; cbn [andb] in H.
    + destruct (truthy (obj sasl_username)) eqn:Hu; cbn [negb orb] in H;
        [| destruct H as (H & _); congruence].
      destruct (truthy (obj sasl_password)) eqn:Hp; cbn [negb orb] in H;
        [| destruct H as (H & _); congruence].
      apply truthy_obj in Hu as (username & -> & Nu).
      apply truthy_obj in Hp as (password & -> & Np).
      destruct H as (c & H & -> & _). rewrite Hc in H. injection H as ->.
      split; [reflexivity |]. split; [discriminate |]. intros _.
      split; [exists mechanism; repeat split; assumption |].
      split; [discriminate |]. intros _.
      exists username, password. repeat split; assumption.
    + destruct H as (c & H & -> & _). rewrite Hc in H. injection H as ->.
      split; [reflexivity |]. split; [discriminate |]. intros _.
      split; [exists mechanism; repeat split; assumption |].
      split; [reflexivity | discriminate].
  - destruct H as (c & H & -> & _). rewrite Hc in H. injection H as ->.
    split; [reflexivity |]. split; [reflexivity | discriminate].
Qed.

Lemma create_producer_config_witness :
  let config :=
    [("bootstrap_servers", Text (Some "localhost:9092"));
     ("value_serializer", ValueSerializer (value_serializer (fun _ => "{}")));
     ("key_serializer", KeySerializer key_serializer);
     ("security_protocol", Text (Some "SASL_SSL"));
     ("sasl_mechanism", Text (Some "PLAIN"));
     ("sasl_plain_username", Text (Some "key"));
     ("sasl_plain_password", Text (Some "secret"))] in
  firstn 4 config
  = [("bootstrap_servers", Text (Some "localhost:9092"));
     ("value_serializer", ValueSerializer (value_serializer (fun _ => "{}")));
     ("key_serializer", KeySerializer key_serializer);
     ("security_protocol", Text (Some "SASL_SSL"))] /\
  (in_list (Some "SASL_SSL") sasl_protocols = false ->
   keys config = base_settings) /\
  (in_list (Some "SASL_SSL") sasl_protocols = true ->
   (exists mechanism,
       Some "PLAIN" = Some mechanism /\ mechanism <> EmptyString /\
       getitem config "sasl_mechanism" = Some (Text (Some mechanism))) /\
   (in_list (Some "PLAIN") with_credentials = false ->
    keys config = (base_settings ++ ["sasl_mechanism"])%list) /\
   (in_list (Some "PLAIN") with_credentials = true ->
    exists username password,
      Some "key" = Some username /\ username <> EmptyString /\
      Some "secret" = Some password /\ password <> EmptyString /\
      getitem config "sasl_plain_username" = Some (Text (Some username)) /\
      getitem config "sasl_plain_password" = Some (Text (Some password)) /\
      keys config = (base_settings ++ ["sasl_mechanism"; "sasl_plain_username";
                                       "sasl_plain_password"])%list)).
Proof.
  apply (@create_producer_config (fun _ => "{}") unit (fun _ => inr tt)
           "localhost:9092" "SASL_SSL" (Some "PLAIN") (Some "key") (Some "secret")).
  reflexivity.
Defined.

(** X18. The password reaches the constructor and nothing else: two runs
    that differ in the password only, both passwords being present or both
    missing, write the same to the two streams and end alike, whenever the
    constructor answers both alike. *)
Theorem create_producer_hides_password (json_dumps : LogEvent -> string)
      (Producer : Type) (connect : dict setting -> exception + Producer)
      (bootstrap_servers security_protocol : string)
      (sasl_mechanism sasl_username password1 password2 : option string) :
  let r1 := create_producer json_dumps connect bootstrap_servers security_protocol
                            sasl_mechanism sasl_username password1 in
  let r2 := create_producer json_dumps connect bootstrap_servers security_protocol
                            sasl_mechanism sasl_username password2 in
  truthy (obj password1) = truthy (obj password2) ->
  (forall config1 config2,
      constructed (fst r1) = Some config1 ->
      constructed (fst r2) = Some config2 ->
      connect config1 = connect config2) ->
  written (fst r1) = written (fst r2) /\ snd r1 = snd r2.
Proof.
  intros r1 r2 Ht Hc. subst r1 r2. revert Hc. run_create.
  destruct (in_list (Some security_protocol) ["SASL_PLAINTEXT"; "SASL_SSL"]).
  - destruct (truthy (obj sasl_mechanism)); cbn [negb];
      [| intros _; split; reflexivity].
    destruct (in_list sasl_mechanism ["PLAIN"; "SCRAM-SHA-256"; "SCRAM-SHA-512"]).
    + rewrite <- Ht.
      destruct (truthy (obj sasl_username)), (truthy (obj password1));
        cbn [negb orb]; try (intros _; split; reflexivity).
      cbn [app setitem String.eqb Ascii.eqb Bool.eqb].
      intros Hc.
      match goal with
      | |- context [Construct ?c1 :: _] =>
          match goal with
          | |- context [connect ?c2] =>
              lazymatch c2 with
              | context [Text password2] => assert (E : connect c1 = connect c2)
              end
          end
      end.
      { apply Hc;
          match goal with
          | |- context [connect ?c] => destruct (connect c); reflexivity
          end. }
      rewrite <- E. destruct (connect _); split; reflexivity.
    + cbn [app setitem String.eqb Ascii.eqb Bool.eqb constructed fst].
      intros _. destruct (connect _); split; reflexivity.
  - cbn [app constructed fst]. intros _.
    destruct (connect _); split; reflexivity.
Qed.

Lemma create_producer_hides_password_witness :
  let connect := fun _ : dict setting =>
                   inl (mkException "NoBrokersAvailable" "Traceback") : exception + unit in
  let r1 := create_producer (fun _ => "{}") connect "localhost:9092" "SASL_SSL"
                            (Some "PLAIN") (Some "key") (Some "secret") in
  let r2 := create_producer (fun _ => "{}") connect "localhost:9092" "SASL_SSL"
                            (Some "PLAIN") (Some "key") (Some "other") in
  written (fst r1) = written (fst r2) /\ snd r1 = snd r2.
Proof.
  intros connect.
  apply (@create_producer_hides_password (fun _ => "{}") unit connect
           "localhost:9092" "SASL_SSL" (Some "PLAIN") (Some "key")
           (Some "secret") (Some "other")).
  - reflexivity.
  - intros config1 config2 _ _. reflexivity.
Defined.
